(** * ncclient: the Junos device handler

    A shallow embedding of [ncclient/devices/junos.py]: the raw-reply hook
    [handle_raw_dispatch], the parser selection [get_xml_parser], the
    schema-reply fix-up [fix_get_schema_reply] and the stylesheet of
    [transform_reply], with the pieces of Python's [re] module and of the
    XML data model they rest on. *)

From Stdlib Require Import String Ascii.
From stdpp Require Import gmap strings list pretty.

Local Open Scope string_scope.

(** ** Python strings *)

Module Str.

(** [strip_prefix l s]: the rest of [s] after the literal [l], when [s]
    starts with [l] ([s.startswith(l)] and [s[len(l):]]). *)
Fixpoint strip_prefix (l s : string) : option string :=
  match l with
  | "" => Some s
  | String a l' =>
      match s with
      | "" => None
      | String b s' => if Ascii.eqb a b then strip_prefix l' s' else None
      end
  end.

(** [needle in hay] on Python strings. *)
Fixpoint contains (needle hay : string) : bool :=
  match strip_prefix needle hay with
  | Some _ => true
  | None =>
      match hay with
      | "" => false
      | String _ hay' => contains needle hay'
      end
  end.

(** [s[:n]] and [s[n:]]. *)
Fixpoint take (n : nat) (s : string) : string :=
  match n, s with
  | S k, String a s' => String a (take k s')
  | _, _ => ""
  end.

Fixpoint drop (n : nat) (s : string) : string :=
  match n, s with
  | S k, String _ s' => drop k s'
  | _, _ => s
  end.

(** [sep.join(pieces)]. *)
Definition join (sep : string) (pieces : list string) : string :=
  String.concat sep pieces.

(** The line feed, ['\n']. *)
Definition LF : string := String (ascii_of_nat 10) "".

(** [needle] occurs in [hay], said without an algorithm. *)
Definition occurs (needle hay : string) : Prop :=
  exists a b, hay = a +:+ needle +:+ b.

(** [c] is none of the characters of [s]. *)
Fixpoint notin (c : ascii) (s : string) : bool :=
  match s with
  | "" => true
  | String b s' => negb (Ascii.eqb c b) && notin c s'
  end.

(** The first character of [l] occurs nowhere else in [l]: two occurrences
    of such a literal in a text cannot overlap. *)
Definition fresh_head (l : string) : bool :=
  match l with
  | String c l' => notin c l'
  | "" => false
  end.

End Str.

(** ** The fragment of Python's [re] the handler uses

    The three patterns of [handle_raw_dispatch] are sequences of literals,
    [.*?], [.*] (both under [re.S], so the dot takes every character) and one
    optional character.  [re_match] is the backtracking matcher anchored at
    the start of the subject: it returns the length of the match Python
    would report there, trying the alternatives in Python's order (a lazy
    star tries the rest of the pattern first, a greedy one consumes first). *)

Module Re.
Import Str.

Inductive item : Type :=
| Lit (l : string)       (* a run of literal characters *)
| AnyLazy                (* .*?  with re.S *)
| AnyGreedy              (* .*   with re.S *)
| OptChar (c : ascii).   (* c?   *)

Definition regex : Type := list item.

Fixpoint re_match (p : regex) : string -> option nat :=
  match p with
  | [] => fun _ => Some 0
  | Lit l :: p' => fun s =>
      match strip_prefix l s with
      | Some s' =>
          match re_match p' s' with
          | Some n => Some (String.length l + n)
          | None => None
          end
      | None => None
      end
  | AnyLazy :: p' =>
      fix lazy (s : string) : option nat :=
        match re_match p' s with
        | Some n => Some n
        | None =>
            match s with
            | "" => None
            | String _ s' =>
                match lazy s' with Some n => Some (S n) | None => None end
            end
        end
  | AnyGreedy :: p' =>
      fix greedy (s : string) : option nat :=
        match s with
        | "" => re_match p' ""
        | String _ s' =>
            match greedy s' with
            | Some n => Some (S n)
            | None => re_match p' s
            end
        end
  | OptChar c :: p' => fun s =>
      match s with
      | String b s' =>
          if Ascii.eqb c b then
            match re_match p' s' with
            | Some n => Some (S n)
            | None => re_match p' s
            end
          else re_match p' s
      | "" => re_match p' s
      end
  end.

(** [re.search(p, s)] as a truth value: is there a position where [p]
    matches? *)
Fixpoint search (p : regex) (s : string) : bool :=
  match re_match p s with
  | Some _ => true
  | None =>
      match s with
      | "" => false
      | String _ s' => search p s'
      end
  end.

(** The scan shared by [re.findall] and [re.sub]: walk the subject from the
    left; [skip] counts the characters still inside the previous match.  At
    a free position the pattern is tried; a match of length [n] is reported
    and the scan resumes after it (after one character for an empty match). *)
Fixpoint findall_from (p : regex) (skip : nat) (s : string) : list string :=
  match skip with
  | S k =>
      match s with
      | "" => []
      | String _ s' => findall_from p k s'
      end
  | 0 =>
      match re_match p s with
      | Some n =>
          take n s ::
            match s with
            | "" => []
            | String _ s' => findall_from p (Nat.pred n) s'
            end
      | None =>
          match s with
          | "" => []
          | String _ s' => findall_from p 0 s'
          end
      end
  end.

Definition findall (p : regex) (s : string) : list string :=
  findall_from p 0 s.

Fixpoint sub_from (p : regex) (repl : string) (skip : nat) (s : string) : string :=
  match skip with
  | S k =>
      match s with
      | "" => ""
      | String _ s' => sub_from p repl k s'
      end
  | 0 =>
      match re_match p s with
      | Some n =>
          repl +:+
            match s with
            | "" => ""
            | String c s' =>
                match n with
                | 0 => String c (sub_from p repl 0 s')
                | S k => sub_from p repl k s'
                end
            end
      | None =>
          match s with
          | "" => ""
          | String c s' => String c (sub_from p repl 0 s')
          end
      end
  end.

(** [re.sub(p, repl, s)] for a replacement without group references. *)
Definition sub (p : regex) (repl s : string) : string :=
  sub_from p repl 0 s.

(** The texts a pattern matches, whatever the order the matcher tries them
    in. *)
Fixpoint lang (p : regex) (m : string) : Prop :=
  match p with
  | [] => m = ""
  | Lit l :: p' => exists m', m = l +:+ m' /\ lang p' m'
  | AnyLazy :: p' | AnyGreedy :: p' => exists a m', m = a +:+ m' /\ lang p' m'
  | OptChar c :: p' => lang p' m \/ exists m', m = String c m' /\ lang p' m'
  end.

(** A text cut into gaps and delimited parts: each part of [parts] is a gap
    followed by [o], a body and [c]; [tail] follows the last part. *)
Fixpoint assemble (o c : string) (parts : list (string * string)) (tail : string) : string :=
  match parts with
  | [] => tail
  | (gap, body) :: rest => gap +:+ o +:+ body +:+ c +:+ assemble o c rest tail
  end.

End Re.

Import Str Re.

(** ** XML documents

    The tree lxml hands back, in the XPath data model: an element has a
    qualified name, attributes (in document order) and child nodes. *)

Record QName : Type := mkQName {
  namespace : option string;   (* QName(el).namespace, None when unqualified *)
  localname : string;          (* QName(el).localname *)
}.

#[global] Instance QName_eq_dec : EqDecision QName.
Proof. solve_decision. Defined.

#[warnings="-register-all"]
Inductive node : Type :=
| Elem (tag : QName) (attrib : list (QName * string)) (children : list node)
| Text (s : string)
| Comment (s : string)
| PI (target data : string).

(** A document (an [ElementTree] or an XSLT result tree) is the list of the
    nodes below its root node. *)
Definition document : Type := list node.

Definition ElementTree (root : node) : document := [root].

Section node_induction.
Variable P : node -> Prop.
Hypothesis P_Elem : forall tag attrib children,
  Forall P children -> P (Elem tag attrib children).
Hypothesis P_Text : forall s, P (Text s).
Hypothesis P_Comment : forall s, P (Comment s).
Hypothesis P_PI : forall t d, P (PI t d).

Fixpoint node_nested_ind (n : node) : P n :=
  match n with
  | Elem tag attrib children =>
      P_Elem tag attrib children
        ((fix all (l : list node) : Forall P l :=
            match l with
            | [] => Forall_nil_2 P
            | c :: l' => Forall_cons_2 P c l' (node_nested_ind c) (all l')
            end) children)
  | Text s => P_Text s
  | Comment s => P_Comment s
  | PI t d => P_PI t d
  end.
End node_induction.

(** Every element of the tree is in namespace [ns]. *)
Fixpoint all_elements_in (ns : string) (n : node) : bool :=
  match n with
  | Elem tag _ children =>
      bool_decide (namespace tag = Some ns) && forallb (all_elements_in ns) children
  | _ => true
  end.

(** The elements of a tree and their names, without attributes, text,
    comments and processing instructions. *)
Fixpoint element_tree (n : node) : list node :=
  match n with
  | Elem tag _ children => [Elem tag [] (concat (map element_tree children))]
  | _ => []
  end.

Definition same_elements (doc1 doc2 : document) : Prop :=
  concat (map element_tree doc1) = concat (map element_tree doc2).

(** Modelled from the spec: [BASE_NS_1_0] is a constant of [ncclient.xml_],
    which is not among the sources; it is the standard NETCONF base
    namespace, the URI the stylesheet of [handle_raw_dispatch] writes out. *)
Definition BASE_NS_1_0 : string := "urn:ietf:params:xml:ns:netconf:base:1.0".

(** *** The [add_ns] stylesheet of [handle_raw_dispatch]

    Its one template matches every element and emits an element of the same
    local name in the base namespace, then applies templates to
    [@*|node()].  Attributes and text fall to XSLT's built-in rule, which
    copies their string value as text; comments and processing instructions
    fall to the built-in rule that emits nothing. *)

(** Text in a result tree: no text node is made for the empty string, and
    text written next to a text node goes into that node. *)
Fixpoint merge_text (l : list node) : list node :=
  match l with
  | [] => []
  | Text s :: rest =>
      let rest := merge_text rest in
      if String.eqb s "" then rest
      else
        match rest with
        | Text t :: rest' => Text (s +:+ t) :: rest'
        | _ => Text s :: rest
        end
  | n :: rest => n :: merge_text rest
  end.

Fixpoint apply_templates (n : node) : list node :=
  match n with
  | Elem tag attrib children =>
      [Elem (mkQName (Some BASE_NS_1_0) (localname tag)) []
         (merge_text
            (map (fun a => Text (snd a)) attrib ++ concat (map apply_templates children)))]
  | Text s => [Text s]
  | Comment _ => []
  | PI _ _ => []
  end.

(** [xslt(doc)]: the built-in rule for the root node applies the templates
    to its children. *)
Definition add_ns (doc : document) : document :=
  merge_text (concat (map apply_templates doc)).

(** ** [RPCError] *)

(** Modelled from the spec: the class [RPCError] of
    [ncclient.operations.rpc] is not among the sources.  Section 3 has an
    error aggregate zero or more individual entries; the handler builds one
    with [RPCError(raw)] and [RPCError(raw, errs)], and the model keeps what
    the constructor is given: the error document and, for an aggregate, the
    list of the individual errors. *)
#[warnings="-register-all"]
Inductive RPCError : Type :=
| mkRPCError (raw : node) (errs : option (list RPCError)).

Definition error_document (e : RPCError) : node :=
  match e with mkRPCError raw _ => raw end.

Definition error_list (e : RPCError) : option (list RPCError) :=
  match e with mkRPCError _ errs => errs end.

(** What [handle_raw_dispatch] hands back to the session. *)
Inductive retval : Type :=
| PyStr (s : string)
| PyError (e : RPCError)
| PyNone
| PyFalse.

(** ** [JunosDeviceHandler.handle_raw_dispatch] *)

(** [r'<ok/>'] and its replacement ['</routing-engine>\n<ok/>']. *)
Definition ok_re : regex := [Lit "<ok/>"].
Definition ok_repl : string := "</routing-engine>" +:+ LF +:+ "<ok/>".

(** [r'<rpc-reply>.*?</rpc-reply>.*</hello>?'] under [re.M | re.S]: the
    question mark makes the last [>] optional. *)
Definition envelope_re : regex :=
  [Lit "<rpc-reply>"; AnyLazy; Lit "</rpc-reply>"; AnyGreedy; Lit "</hello"; OptChar ">"].

(** [r'<rpc-error>.*?</rpc-error>'] under [re.M | re.S]. *)
Definition rpc_error_re : regex :=
  [Lit "<rpc-error>"; AnyLazy; Lit "</rpc-error>"].

(** The text the aggregate error document is parsed from. *)
Definition envelope_of (errs : list string) : string :=
  "<rpc-reply>" +:+ join "" errs +:+ "</rpc-reply>".

(** The shapes the handler looks for, said without [re]: an
    [<rpc-reply>...</rpc-reply>] followed somewhere by [</hello]; an
    [<rpc-error>...</rpc-error>] fragment. *)
Definition envelope_shape (raw : string) : Prop :=
  exists a b c d,
    raw = a +:+ "<rpc-reply>" +:+ b +:+ "</rpc-reply>" +:+ c +:+ "</hello" +:+ d.

Definition rpc_error_fragment (body : string) : string :=
  "<rpc-error>" +:+ body +:+ "</rpc-error>".

Definition has_fragment (raw : string) : Prop :=
  exists x body z, raw = x +:+ rpc_error_fragment body +:+ z.

(** A reply whose fragments are, in this order, the bodies of [parts], each
    after its gap. *)
Definition reply_of (parts : list (string * string)) (tail : string) : string :=
  assemble "<rpc-error>" "</rpc-error>" parts tail.

Section RawDispatch.
(** lxml and [ncclient.xml_.to_ele]: a parser returns the root element,
    [None] stands for the [XMLSyntaxError] it raises. *)
Variable XML : string -> option node.
Variable tostring : document -> string.
Variable to_ele : string -> option node.

(** The body of the [for err in errs] loop; [None] is an exception
    leaving the handler. *)
Definition repair_fragment (err : string) : option RPCError :=
  doc ← ElementTree <$> XML err;
  transformed_xml ← XML (tostring (add_ns doc));
  Some (mkRPCError transformed_xml None).

(** [t] is the document an entry is built from: [err] parsed, run through
    the stylesheet, serialized and parsed again, the last two steps keeping
    the elements and their names. *)
Definition repaired_by (err : string) (t : node) : Prop :=
  exists d,
    XML err = Some d
    /\ XML (tostring (add_ns (ElementTree d))) = Some t
    /\ same_elements [t] (add_ns (ElementTree d)).

Definition handle_raw_dispatch (raw : string) : option retval :=
  if contains "routing-engine" raw then
    let raw := sub ok_re ok_repl raw in
    Some (PyStr raw)
  else if search envelope_re raw then
    match findall rpc_error_re raw with
    | [] => Some PyNone
    | errs =>
        err_list ← mapM repair_fragment errs;
        root ← to_ele ("<rpc-reply>" +:+ join "" errs +:+ "</rpc-reply>");
        Some (PyError (mkRPCError root (Some err_list)))
    end
  else Some PyFalse.
End RawDispatch.

(** ** A reference instance of the lxml interface

    [handle_raw_dispatch] is stated over any parser and serializer.  Where a
    concrete one is needed (to run the handler on a reply) this module
    supplies it: a namespace-aware parser for the fragment of XML 1.0 made of
    elements, attributes, namespace declarations, character data and the
    five predefined entities, and the matching serializer.  Whatever it does
    not cover (comments, processing instructions, CDATA, DOCTYPE, character
    references, the [xml] prefix) it rejects. *)

Module MiniXML.

Definition code (c : ascii) : nat := nat_of_ascii c.

Definition is_space (c : ascii) : bool :=
  Nat.eqb (code c) 32 || Nat.eqb (code c) 9 || Nat.eqb (code c) 10 || Nat.eqb (code c) 13.

Definition is_name_start (c : ascii) : bool :=
  (Nat.leb 65 (code c) && Nat.leb (code c) 90)
  || (Nat.leb 97 (code c) && Nat.leb (code c) 122)
  || Nat.eqb (code c) 95.

Definition is_name_char (c : ascii) : bool :=
  is_name_start c
  || (Nat.leb 48 (code c) && Nat.leb (code c) 57)
  || Nat.eqb (code c) 45 || Nat.eqb (code c) 46 || Nat.eqb (code c) 58.

Definition quot : ascii := ascii_of_nat 34.
Definition apos : ascii := ascii_of_nat 39.

(** The longest prefix whose characters satisfy [f], and the rest. *)
Fixpoint span (f : ascii -> bool) (s : string) : string * string :=
  match s with
  | String c s' =>
      if f c then let r := span f s' in (String c (fst r), snd r) else ("", s)
  | "" => ("", "")
  end.

Definition skip_space (s : string) : string := snd (span is_space s).

Definition parse_name (s : string) : option (string * string) :=
  match s with
  | String c _ => if is_name_start c then Some (span is_name_char s) else None
  | "" => None
  end.

(** The predefined entities, without their ampersand. *)
Definition entities : list (string * ascii) :=
  [("lt;", "<"%char); ("gt;", ">"%char); ("amp;", "&"%char);
   ("quot;", quot); ("apos;", apos)].

Definition entity (s : string) : option (ascii * nat) :=
  head (omap (fun e => if strip_prefix (fst e) s is Some _ then Some (snd e, String.length (fst e)) else None)
          entities).

(** Character data with its entity references replaced; [ok] says which
    characters may stand for themselves. *)
Fixpoint unescape_from (ok : ascii -> bool) (skip : nat) (s : string) : option string :=
  match s with
  | "" => Some ""
  | String c s' =>
      match skip with
      | S k => unescape_from ok k s'
      | 0 =>
          if Ascii.eqb c "&" then
            '(d, len) ← entity s';
            String d <$> unescape_from ok len s'
          else if ok c then String c <$> unescape_from ok 0 s'
          else None
      end
  end.

Definition text_char (c : ascii) : bool :=
  Nat.leb 32 (code c) || Nat.eqb (code c) 9 || Nat.eqb (code c) 10.
Definition value_char (c : ascii) : bool :=
  Nat.leb 32 (code c) && negb (Ascii.eqb c "<").

(** [(S Attribute)*]: the attributes of a start tag as written. *)
Fixpoint parse_attrs (fuel : nat) (s : string) : option (list (string * string) * string) :=
  match fuel with
  | 0 => None
  | S fuel' =>
      match parse_name (skip_space s) with
      | Some (name, s1) =>
          if bool_decide (skip_space s = s) then None
          else
            match skip_space s1 with
            | String eq s2 =>
                if Ascii.eqb eq "=" then
                  match skip_space s2 with
                  | String q s3 =>
                      if Ascii.eqb q quot || Ascii.eqb q apos then
                        match snd (span (fun c => negb (Ascii.eqb c q)) s3) with
                        | String _ s4 =>
                            v ← unescape_from value_char 0
                                  (fst (span (fun c => negb (Ascii.eqb c q)) s3));
                            '(more, s5) ← parse_attrs fuel' s4;
                            Some ((name, v) :: more, s5)
                        | "" => None
                        end
                      else None
                  | "" => None
                  end
                else None
            | "" => None
            end
      | None => Some ([], skip_space s)
      end
  end.

(** Namespaces in scope: the default one and the prefix bindings. *)
Record ns_env : Type := mk_env {
  env_default : option string;
  env_prefixes : list (string * string);
}.

Definition split_qname (raw : string) : option (option string * string) :=
  match snd (span (fun c => negb (Ascii.eqb c ":")) raw) with
  | "" => Some (None, raw)
  | String _ "" => None
  | String _ (String c _ as local) =>
      if is_name_start c && negb (contains ":" local)
      then Some (Some (fst (span (fun c => negb (Ascii.eqb c ":")) raw)), local)
      else None
  end.

Definition lookup_prefix (env : ns_env) (p : string) : option string :=
  snd <$> List.find (fun b => String.eqb (fst b) p) (env_prefixes env).

(** The declarations of a start tag, added to the scope. *)
Fixpoint declare (env : ns_env) (raw_attrs : list (string * string)) : option ns_env :=
  match raw_attrs with
  | [] => Some env
  | (name, v) :: more =>
      q ← split_qname name;
      match q with
      | (None, "xmlns") =>
          declare (mk_env (if String.eqb v "" then None else Some v) (env_prefixes env)) more
      | (Some "xmlns", p) =>
          if String.eqb v "" then None
          else declare (mk_env (env_default env) ((p, v) :: env_prefixes env)) more
      | _ => declare env more
      end
  end.

Definition resolve_tag (env : ns_env) (name : string) : option QName :=
  q ← split_qname name;
  match q with
  | (None, local) => Some (mkQName (env_default env) local)
  | (Some p, local) => ns ← lookup_prefix env p; Some (mkQName (Some ns) local)
  end.

Fixpoint resolve_attrs (env : ns_env) (raw_attrs : list (string * string))
  : option (list (QName * string)) :=
  match raw_attrs with
  | [] => Some []
  | (name, v) :: more =>
      q ← split_qname name;
      match q with
      | (None, "xmlns") => resolve_attrs env more
      | (Some "xmlns", _) => resolve_attrs env more
      | (None, local) =>
          rest ← resolve_attrs env more; Some ((mkQName None local, v) :: rest)
      | (Some p, local) =>
          ns ← lookup_prefix env p;
          rest ← resolve_attrs env more; Some ((mkQName (Some ns) local, v) :: rest)
      end
  end.

Fixpoint parse_element (fuel : nat) (env : ns_env) (s : string) : option (node * string) :=
  match fuel with
  | 0 => None
  | S fuel' =>
      s1 ← strip_prefix "<" s;
      '(name, s2) ← parse_name s1;
      '(raw_attrs, s3) ← parse_attrs (S (String.length s2)) s2;
      env' ← declare env raw_attrs;
      tag ← resolve_tag env' name;
      attrib ← resolve_attrs env' raw_attrs;
      if bool_decide (NoDup (raw_attrs.*1)) && bool_decide (NoDup (attrib.*1)) then
        match strip_prefix "/>" s3 with
        | Some s4 => Some (Elem tag attrib [], s4)
        | None =>
            s4 ← strip_prefix ">" s3;
            '(children, s5) ← parse_content fuel' env' s4;
            s6 ← strip_prefix "</" s5;
            '(name', s7) ← parse_name s6;
            s8 ← strip_prefix ">" (skip_space s7);
            if String.eqb name name' then Some (Elem tag attrib children, s8) else None
        end
      else None
  end
with parse_content (fuel : nat) (env : ns_env) (s : string) : option (list node * string) :=
  match fuel with
  | 0 => None
  | S fuel' =>
      match s with
      | "" => Some ([], "")
      | String c _ =>
          if Ascii.eqb c "<" then
            if strip_prefix "</" s is Some _ then Some ([], s)
            else
              '(e, s1) ← parse_element fuel' env s;
              '(more, s2) ← parse_content fuel' env s1;
              Some (e :: more, s2)
          else
            if contains "]]>" (fst (span (fun c => negb (Ascii.eqb c "<")) s)) then None
            else
              t ← unescape_from text_char 0 (fst (span (fun c => negb (Ascii.eqb c "<")) s));
              '(more, s1) ← parse_content fuel' env (snd (span (fun c => negb (Ascii.eqb c "<")) s));
              Some (Text t :: more, s1)
      end
  end.

(** [etree.XML(text)]: the root element of a document, [None] where lxml
    raises [XMLSyntaxError]. *)
Definition XML (text : string) : option node :=
  '(root, rest) ← parse_element (2 * String.length text + 2) (mk_env None []) (skip_space text);
  if String.eqb (skip_space rest) "" then Some root else None.

(** [to_ele(text)] of [ncclient.xml_] parses its argument with the same
    parser. *)
Definition to_ele (text : string) : option node := XML text.

Fixpoint escape (specials : list (ascii * string)) (s : string) : string :=
  match s with
  | "" => ""
  | String c s' =>
      match List.find (fun e => Ascii.eqb (fst e) c) specials with
      | Some e => snd e +:+ escape specials s'
      | None => String c (escape specials s')
      end
  end.

Definition escape_text : string -> string :=
  escape [("&"%char, "&amp;"); ("<"%char, "&lt;"); (">"%char, "&gt;")].
Definition escape_value : string -> string :=
  escape [("&"%char, "&amp;"); ("<"%char, "&lt;"); (quot, "&quot;")].

Definition quoted (s : string) : string :=
  String quot (escape_value s +:+ String quot "").

(** The [i]-th attribute of a start tag; a qualified one brings the
    declaration of a prefix of its own. *)
Definition serialize_attr (i : nat) (a : QName * string) : string :=
  match namespace (fst a) with
  | None => " " +:+ localname (fst a) +:+ "=" +:+ quoted (snd a)
  | Some ns =>
      " xmlns:ns" +:+ pretty i +:+ "=" +:+ quoted ns
      +:+ " ns" +:+ pretty i +:+ ":" +:+ localname (fst a) +:+ "=" +:+ quoted (snd a)
  end.

(** An element declares its namespace as the default one unless its parent
    already did. *)
Fixpoint serialize (inherited : option string) (n : node) : string :=
  match n with
  | Elem tag attrib children =>
      "<" +:+ localname tag
      +:+ (if decide (namespace tag = inherited) then ""
           else " xmlns=" +:+ quoted (default "" (namespace tag)))
      +:+ join "" (imap serialize_attr attrib)
      +:+ match children with
          | [] => "/>"
          | _ => ">" +:+ join "" (map (serialize (namespace tag)) children)
                 +:+ "</" +:+ localname tag +:+ ">"
          end
  | Text s => escape_text s
  | Comment s => "<!--" +:+ s +:+ "-->"
  | PI t d => "<?" +:+ t +:+ " " +:+ d +:+ "?>"
  end.

(** [etree.tostring(doc)]. *)
Definition tostring (doc : document) : string :=
  join "" (map (serialize None) doc).

End MiniXML.

(** ** [fix_get_schema_reply] *)

Definition qname_of (n : node) : option QName :=
  match n with
  | Elem tag _ _ => Some tag
  | _ => None
  end.

(** [QName(el).namespace]. *)
Definition namespace_of (n : node) : option string :=
  qname_of n ≫= namespace.

(** The step [*[local-name()="data"]]: an element whose local name is
    [data], whatever its namespace. *)
Definition is_data (n : node) : bool :=
  match n with
  | Elem tag _ _ => String.eqb (localname tag) "data"
  | _ => false
  end.

(** The children selected by the step, each with its position (the
    function below rewrites the selected element in place). *)
Fixpoint select_data (i : nat) (children : list node) : list (nat * node) :=
  match children with
  | [] => []
  | c :: rest =>
      (if is_data c then [(i, c)] else []) ++ select_data (S i) rest
  end.

(** [root.xpath('/nc:rpc-reply/*[local-name()="data"]', namespaces={'nc': BASE_NS_1_0})]
    on the root element of a reply. *)
Definition xpath_data (root : node) : list (nat * node) :=
  match root with
  | Elem tag _ children =>
      if decide (tag = mkQName (Some BASE_NS_1_0) "rpc-reply")
      then select_data 0 children else []
  | _ => []
  end.

(** The tree after the [i]-th child of the root was changed in place. *)
Definition set_child (i : nat) (c : node) (root : node) : node :=
  match root with
  | Elem tag attrib children => Elem tag attrib (<[i:=c]> children)
  | _ => root
  end.

Definition rfc_warning : string :=
  "The device seems to run non-rfc compliant netconf. You may want to "
  +:+ "configure: 'set system services netconf rfc-compliant'".

Section SchemaReply.
(** The constant and the helper of [ncclient.xml_] the function imports:
    [replace_namespace el old new] is the element [el] after the call
    [replace_namespace(el, old_ns=old, new_ns=new)]. *)
Variable NETCONF_MONITORING_NS : string.
Variable replace_namespace : node -> option string -> string -> node.

(** The function returns nothing and works on the tree it is given: the
    model returns the tree afterwards and the warnings logged. *)
Definition fix_get_schema_reply (root : node) : node * list string :=
  match xpath_data root with
  | [(i, data_el)] =>
      match namespace_of data_el with
      | Some namespace =>
          if String.eqb namespace BASE_NS_1_0 then
            (set_child i (replace_namespace data_el (Some BASE_NS_1_0) NETCONF_MONITORING_NS) root,
             [rfc_warning])
          else (root, [])
      | None =>
          (set_child i (replace_namespace data_el None NETCONF_MONITORING_NS) root, [])
      end
  | _ => (root, [])
  end.
End SchemaReply.

(** Modelled from the spec: [replace_namespace] is defined in
    [ncclient.xml_], which is not among the sources.  Section 4.4 of the
    spec says of the element it is called on that its namespace, when it is
    the old one, is rewritten to the new one; this instance does that and
    nothing else. *)
Definition replace_namespace_tag (el : node) (old_ns : option string) (new_ns : string) : node :=
  match el with
  | Elem tag attrib children =>
      if decide (namespace tag = old_ns)
      then Elem (mkQName (Some new_ns) (localname tag)) attrib children
      else el
  | _ => el
  end.

(** Modelled from the spec: the monitoring namespace ([NETCONF_MONITORING_NS]
    of [ncclient.xml_]) that section 4.4 rewrites the data element to. *)
Definition monitoring_ns : string := "urn:ietf:params:xml:ns:yang:ietf-netconf-monitoring".

(** ** [JunosDeviceHandler.get_xml_parser] *)

(** A listener object: its class and its identity. *)
Record listener : Type := mkListener {
  listener_class : string;
  listener_id : nat;
}.

#[global] Instance listener_eq_dec : EqDecision listener.
Proof. solve_decision. Defined.

#[global] Instance listener_countable : Countable listener.
Proof.
  apply (inj_countable' (fun l => (listener_class l, listener_id l))
           (fun p => mkListener (fst p) (snd p))).
  by intros [].
Defined.

Definition isinstance (cls : string) (l : listener) : bool :=
  String.eqb (listener_class l) cls.

(** Modelled from the spec: the session ([ncclient.transport.session]) is
    not among the sources.  Sections 4.1 and 5 say it offers listener
    registration and removal, and that removing a listener that is not
    attached is a no-op; the session is modelled as the set of the
    listeners attached to it. *)
Record Session : Type := mkSession {
  listeners : gset listener;
}.

(** Some attached listener of class [cls], if there is one. *)
Definition get_listener_instance (cls : string) (session : Session) : option listener :=
  head (filter (fun l => isinstance cls l = true) (elements (listeners session))).

Definition remove_listener (l : listener) (session : Session) : Session :=
  mkSession (listeners session ∖ {[l]}).

Definition add_listener (l : listener) (session : Session) : Session :=
  mkSession ({[l]} ∪ listeners session).

(** Objects have an identity, and no two objects of a run share one, be it
    that the first is gone when the second is made.  The identity of a
    listener is the number of listeners made before it; the state of the
    run holds the number [made] so far.  [cls(session)] makes a listener. *)
Definition new_listener (cls : string) (made : nat) : listener * nat :=
  (mkListener cls made, S made).

(** The listeners attached to the session were made in this run. *)
Definition known (made : nat) (session : Session) : Prop :=
  forall l, l ∈ listeners session -> listener_id l < made.

(** A value of the [device_params] dictionary. *)
Inductive param : Type :=
| ParamBool (b : bool)
| ParamStr (s : string).

Definition truthy (v : param) : bool :=
  match v with
  | ParamBool b => b
  | ParamStr s => negb (String.eqb s "")
  end.

Inductive xml_parser : Type :=
| DefaultXMLParser
| JunosXMLParser.

(** The parser chosen for the session, and the session and the number of
    listeners made afterwards. *)
Definition get_xml_parser (device_params : gmap string param) (session : Session) (made : nat)
  : xml_parser * (Session * nat) :=
  if negb (truthy (default (ParamBool false) (device_params !! "use_filter"))) then
    (DefaultXMLParser, (session, made))
  else
    let session :=
      match get_listener_instance "SAXParserHandler" session with
      | Some l => remove_listener l session
      | None => session
      end in
    let '(handler, made) := new_listener "SAXParserHandler" made in
    let session := add_listener handler session in
    (JunosXMLParser, (session, made)).

(** The listeners of class [SAXParserHandler] attached to a session. *)
Definition sax_listeners (session : Session) : gset listener :=
  filter (fun l => isinstance "SAXParserHandler" l = true) (listeners session).

(** ** [JunosDeviceHandler.transform_reply]

    The method returns a stylesheet; the reply is run through it before it
    is handed to the caller.  Its three templates: the root, comments and
    processing instructions are copied; an element becomes an element
    named by its local name, with the results of its attributes and
    children inside; an attribute becomes an attribute named by its local
    name, with its value.  Text falls to the built-in template, which
    copies it.  Where the stylesheet cannot be applied lxml raises
    [XSLTApplyError]: the result is an option, [None] for the exception. *)

(** [xsl:attribute]: an attribute added to an element replaces the one of
    the same name the element already has. *)
Fixpoint set_attribute (name : QName) (v : string) (attrib : list (QName * string))
  : list (QName * string) :=
  match attrib with
  | [] => [(name, v)]
  | (n, w) :: rest =>
      if decide (n = name) then (n, v) :: rest else (n, w) :: set_attribute name v rest
  end.

(** The template for [@*], run over the attributes in document order and
    adding to the attributes [acc] the element has so far.  [xsl:attribute]
    refuses the name [xmlns]: the transformation stops there, and lxml
    raises [XSLTApplyError] ([None]). *)
Fixpoint strip_attributes (acc attrib : list (QName * string))
  : option (list (QName * string)) :=
  match attrib with
  | [] => Some acc
  | a :: rest =>
      if String.eqb (localname a.1) "xmlns" then None
      else strip_attributes (set_attribute (mkQName None (localname a.1)) a.2 acc) rest
  end.

(** The result of [apply-templates] on one node. *)
Fixpoint strip_templates (n : node) : option (list node) :=
  match n with
  | Elem tag attrib children =>
      attrib' ← strip_attributes [] attrib;
      kids ← mapM strip_templates children;
      Some [Elem (mkQName None (localname tag)) attrib' (merge_text (concat kids))]
  | Text s => Some [Text s]
  | Comment s => Some [Comment s]
  | PI t d => Some [PI t d]
  end.

(** The result tree of the stylesheet on a document. *)
Definition transform_reply (doc : document) : option document :=
  kids ← mapM strip_templates doc;
  Some (merge_text (concat kids)).

(** No element and no attribute of the tree is in a namespace, and no
    element has two attributes of one name. *)
Fixpoint unqualified (n : node) : bool :=
  match n with
  | Elem tag attrib children =>
      bool_decide (namespace tag = None)
      && forallb (fun a => bool_decide (namespace a.1 = None)) attrib
      && bool_decide (NoDup attrib.*1)
      && forallb unqualified children
  | _ => true
  end.

(** The tree without its attributes and without the namespaces of its
    elements: the nesting, the local names, the text, the comments and the
    processing instructions. *)
Fixpoint forget_namespaces (n : node) : node :=
  match n with
  | Elem tag _ children => Elem (mkQName None (localname tag)) [] (map forget_namespaces children)
  | _ => n
  end.

(** The attributes of an element as a dictionary from local names to
    values. *)
Definition by_localname (attrib : list (QName * string)) : gmap string string :=
  list_to_map ((fun a => (localname a.1, a.2)) <$> attrib).

(** ** Notions the further facts are stated with *)

(** No text node of the list is empty and no two stand side by side. *)
Fixpoint merged (l : list node) : bool :=
  match l with
  | [] => true
  | Text s :: rest =>
      negb (String.eqb s "")
      && match rest with Text _ :: _ => false | _ => true end
      && merged rest
  | _ :: rest => merged rest
  end.

(** Some attribute in the tree has the local name [xmlns]. *)
Fixpoint refused (n : node) : bool :=
  match n with
  | Elem _ attrib children =>
      existsb (fun a => String.eqb (localname a.1) "xmlns") attrib || existsb refused children
  | _ => false
  end.

(** A tree as a parser builds it: text is in as few nodes as can be. *)
Fixpoint parsed (n : node) : bool :=
  match n with
  | Elem _ _ children => merged children && forallb parsed children
  | _ => true
  end.

(** A tree as [add_ns] leaves it: elements of the base namespace without
    attributes, and text in as few nodes as can be; no comment and no
    processing instruction. *)
Fixpoint repaired (n : node) : bool :=
  match n with
  | Elem tag attrib children =>
      bool_decide (namespace tag = Some BASE_NS_1_0)
      && bool_decide (attrib = [])
      && merged children
      && forallb repaired children
  | Text _ => true
  | _ => false
  end.

(** The text [add_ns] finds in a node, in document order: in an element the
    values of its attributes, then what its children hold; nothing in a
    comment or a processing instruction.  Of a tree without attributes,
    comments and processing instructions this is the string value. *)
Fixpoint text_of (n : node) : string :=
  match n with
  | Elem _ attrib children => join "" (map snd attrib) +:+ join "" (map text_of children)
  | Text s => s
  | _ => ""
  end.

(** [r'<rpc-reply>.*?</rpc-reply>.*</hello'], the envelope pattern without
    its last two characters. *)
Definition envelope_re_plain : regex :=
  [Lit "<rpc-reply>"; AnyLazy; Lit "</rpc-reply>"; AnyGreedy; Lit "</hello"].

(** The pieces of a text with [suffix] put at the end of each piece but the
    last. *)
Fixpoint tag_pieces (suffix : string) (pieces : list string) : list string :=
  match pieces with
  | x :: ((_ :: _) as rest) => (x +:+ suffix) :: tag_pieces suffix rest
  | _ => pieces
  end.

(** ** Sample replies, documents and sessions *)

(** A reply in the shape the extraction path is written for: the envelope
    and the greeting end, then two error fragments. *)
Definition sample_parts : list (string * string) :=
  [("<rpc-reply></rpc-reply></hello>", "<error-severity>error</error-severity>");
   ("", "<error-message>syntax error</error-message>")].

(** Solves [f = Some ?x] by running [f]. *)
Ltac parsed :=
  lazymatch goal with
  | |- ?f = Some ?x =>
      let v := eval vm_compute in f in
      lazymatch v with
      | Some ?y => unify x y; vm_compute; reflexivity
      end
  end.

(** A reply of the same shape whose error message names a routing engine. *)
Definition reply_naming_routing_engine : string :=
  "<rpc-reply></rpc-reply></hello>"
  +:+ "<rpc-error><error-message>routing-engine re1 not ready</error-message></rpc-error>".

(** A reply in which two routing engines each answer [<ok/>]. *)
Definition two_routing_engines : string :=
  "<routing-engine><name>re0</name><ok/><routing-engine><name>re1</name><ok/>".

(** A [get-schema] reply whose data element is in namespace [data_ns]. *)
Definition schema_reply (data_ns : option string) : node :=
  Elem (mkQName (Some BASE_NS_1_0) "rpc-reply") [(mkQName None "message-id", "7")]
    [Elem (mkQName data_ns "data") [] [Text "module example { }"]].

(** A reply with two data elements. *)
Definition schema_reply_two_data : node :=
  Elem (mkQName (Some BASE_NS_1_0) "rpc-reply") []
    [Elem (mkQName None "data") [] []; Elem (mkQName (Some BASE_NS_1_0) "data") [] []].

(** Device parameters that ask for the streaming parser. *)
Definition filtering_params : gmap string param :=
  {[ "name" := ParamStr "junos"; "use_filter" := ParamBool true ]}.

(** A session with two [SAXParserHandler] listeners attached. *)
Definition session_with_two_handlers : Session :=
  mkSession {[ mkListener "SAXParserHandler" 0; mkListener "SAXParserHandler" 1 ]}.

(** A session that already has a [SAXParserHandler] attached. *)
Definition session_with_handler : Session :=
  mkSession {[ mkListener "SAXParserHandler" 0; mkListener "RPCReplyListener" 1 ]}.

(** A reply with elements and attributes in namespaces, two of its
    attributes differing in the namespace only, and what the stylesheet of
    [transform_reply] makes of it. *)
Definition qualified_reply : document :=
  [Comment "junos";
   Elem (mkQName (Some BASE_NS_1_0) "rpc-reply")
     [(mkQName (Some "urn:a") "id", "1"); (mkQName None "seq", "7"); (mkQName None "id", "2")]
     [Elem (mkQName (Some "urn:junos") "data") [] [Text "x"; PI "p" "d"; Text "y"]]].

Definition stripped_reply : document :=
  [Comment "junos";
   Elem (mkQName None "rpc-reply") [(mkQName None "id", "2"); (mkQName None "seq", "7")]
     [Elem (mkQName None "data") [] [Text "x"; PI "p" "d"; Text "y"]]].

(** * Properties *)

(** ** Strings *)

Lemma sapp_cons a s t : String a s +:+ t = String a (s +:+ t).
Proof. reflexivity. Qed.

Lemma sapp_nil_r s : s +:+ "" = s.
Proof. induction s as [|a s IH]; [done|]. by rewrite sapp_cons, IH. Qed.

Lemma sapp_assoc s t u : (s +:+ t) +:+ u = s +:+ t +:+ u.
Proof. induction s as [|a s IH]; [done|]. by rewrite !sapp_cons, IH. Qed.

Lemma slength_app s t : String.length (s +:+ t) = String.length s + String.length t.
Proof. induction s as [|a s IH]; [done|]. rewrite sapp_cons. simpl. by rewrite IH. Qed.

Lemma strip_prefix_spec l s r : strip_prefix l s = Some r <-> s = l +:+ r.
Proof.
  revert s. induction l as [|a l IH]; intros s; simpl.
  - split; [by intros [= ->]|by intros ->].
  - destruct s as [|b s]; [by split|].
    rewrite sapp_cons. destruct (Ascii.eqb_spec a b) as [->|Hne].
    + rewrite IH. split; [by intros ->|by intros [= ->]].
    + split; [done|]. intros [= ? _]. by destruct Hne.
Qed.

Lemma strip_prefix_app l r : strip_prefix l (l +:+ r) = Some r.
Proof. by apply strip_prefix_spec. Qed.

Lemma contains_unfold needle hay :
  contains needle hay =
    match strip_prefix needle hay with
    | Some _ => true
    | None => match hay with "" => false | String _ hay' => contains needle hay' end
    end.
Proof. by destruct hay. Qed.

Lemma contains_spec needle hay : contains needle hay = true <-> occurs needle hay.
Proof.
  split.
  - induction hay as [|c hay IH]; rewrite contains_unfold.
    + destruct (strip_prefix needle "") as [r|] eqn:E; [|done].
      intros _. apply strip_prefix_spec in E. by exists "", r.
    + destruct (strip_prefix needle (String c hay)) as [r|] eqn:E.
      * intros _. apply strip_prefix_spec in E. by exists "", r.
      * intros (a & b & ->)%IH. by exists (String c a), b.
  - intros (a & b & ->). induction a as [|c a IH]; rewrite contains_unfold.
    + change ("" +:+ needle +:+ b) with (needle +:+ b). by rewrite strip_prefix_app.
    + rewrite sapp_cons. destruct (strip_prefix needle _); [done|]. exact IH.
Qed.

Lemma contains_false_suffix needle a1 a2 :
  contains needle (a1 +:+ a2) = false -> strip_prefix needle a2 = None.
Proof.
  intros H. destruct (strip_prefix needle a2) as [r|] eqn:E; [|done].
  apply strip_prefix_spec in E. subst a2.
  assert (contains needle (a1 +:+ needle +:+ r) = true) as Ht; [|congruence].
  apply contains_spec. by exists a1, r.
Qed.

(** ** The matcher: what it accepts *)

Lemma re_match_lit l p s :
  re_match (Lit l :: p) s =
    match strip_prefix l s with
    | Some s' =>
        match re_match p s' with Some n => Some (String.length l + n) | None => None end
    | None => None
    end.
Proof. reflexivity. Qed.

Lemma re_match_lazy p s :
  re_match (AnyLazy :: p) s =
    match re_match p s with
    | Some n => Some n
    | None =>
        match s with
        | "" => None
        | String _ s' =>
            match re_match (AnyLazy :: p) s' with Some n => Some (S n) | None => None end
        end
    end.
Proof. by destruct s. Qed.

Lemma re_match_greedy p s :
  re_match (AnyGreedy :: p) s =
    match s with
    | "" => re_match p ""
    | String _ s' =>
        match re_match (AnyGreedy :: p) s' with
        | Some n => Some (S n)
        | None => re_match p s
        end
    end.
Proof. by destruct s. Qed.

Lemma re_match_opt c p s :
  re_match (OptChar c :: p) s =
    match s with
    | String b s' =>
        if Ascii.eqb c b then
          match re_match p s' with Some n => Some (S n) | None => re_match p s end
        else re_match p s
    | "" => re_match p s
    end.
Proof. reflexivity. Qed.

Lemma re_match_sound p : forall s n,
  re_match p s = Some n ->
  exists m r, s = m +:+ r /\ String.length m = n /\ lang p m.
Proof.
  induction p as [|[l| | |c] p IH]; intros s n.
  - intros [= <-]. by exists "", s.
  - rewrite re_match_lit.
    destruct (strip_prefix l s) as [s'|] eqn:El; [|done].
    destruct (re_match p s') as [k|] eqn:Ep; [|done]. intros [= <-].
    apply strip_prefix_spec in El as ->.
    destruct (IH _ _ Ep) as (m & r & -> & <- & Hm).
    exists (l +:+ m), r. rewrite sapp_assoc, slength_app.
    split; [done|]. split; [done|]. by exists m.
  - revert n. induction s as [|c s IHs]; intros n; rewrite re_match_lazy.
    + destruct (re_match p "") as [k|] eqn:Ep; [|done]. intros [= <-].
      destruct (IH _ _ Ep) as (m & r & E & <- & Hm).
      exists m, r. split; [done|]. split; [done|]. by exists "", m.
    + destruct (re_match p (String c s)) as [k|] eqn:Ep.
      * intros [= <-]. destruct (IH _ _ Ep) as (m & r & E & <- & Hm).
        exists m, r. split; [done|]. split; [done|]. by exists "", m.
      * destruct (re_match (AnyLazy :: p) s) as [k|] eqn:Es; [|done].
        intros [= <-]. destruct (IHs _ eq_refl) as (m & r & -> & <- & a & m' & -> & Hm).
        exists (String c (a +:+ m')), r. split; [done|]. split; [done|].
        by exists (String c a), m'.
  - revert n. induction s as [|c s IHs]; intros n; rewrite re_match_greedy.
    + intros Ep. destruct (IH _ _ Ep) as (m & r & E & <- & Hm).
      exists m, r. split; [done|]. split; [done|]. by exists "", m.
    + destruct (re_match (AnyGreedy :: p) s) as [k|] eqn:Es.
      * intros [= <-]. destruct (IHs _ eq_refl) as (m & r & -> & <- & a & m' & -> & Hm).
        exists (String c (a +:+ m')), r. split; [done|]. split; [done|].
        by exists (String c a), m'.
      * intros Ep. destruct (IH _ _ Ep) as (m & r & E & <- & Hm).
        exists m, r. split; [done|]. split; [done|]. by exists "", m.
  - rewrite re_match_opt.
    assert (re_match p s = Some n ->
            exists m r, s = m +:+ r /\ String.length m = n /\ lang (OptChar c :: p) m) as Hskip.
    { intros Ep. destruct (IH _ _ Ep) as (m & r & E & <- & Hm).
      exists m, r. split; [done|]. split; [done|]. by left. }
    destruct s as [|b s]; [done|].
    destruct (Ascii.eqb_spec c b) as [<-|Hne]; [|done].
    destruct (re_match p s) as [k|] eqn:Ep; [|done]. intros [= <-].
    destruct (IH _ _ Ep) as (m & r & -> & <- & Hm).
    exists (String c m), r. split; [done|]. split; [done|]. right. eauto.
Qed.

Lemma re_match_complete p : forall m r,
  lang p m -> is_Some (re_match p (m +:+ r)).
Proof.
  induction p as [|[l| | |c] p IH]; intros m r.
  - by eexists.
  - intros (m' & -> & Hm). rewrite re_match_lit, sapp_assoc, strip_prefix_app.
    destruct (IH _ r Hm) as [k ->]. by eexists.
  - intros (a & m' & -> & Hm). rewrite sapp_assoc.
    induction a as [|c a IHa]; rewrite re_match_lazy.
    + destruct (IH _ r Hm) as [k Hk]. change ("" +:+ m' +:+ r) with (m' +:+ r).
      rewrite Hk. by eexists.
    + rewrite sapp_cons. destruct (re_match p _); [by eexists|].
      destruct IHa as [k ->]. by eexists.
  - intros (a & m' & -> & Hm). rewrite sapp_assoc.
    induction a as [|c a IHa].
    + change ("" +:+ m' +:+ r) with (m' +:+ r).
      destruct (IH _ r Hm) as [k Hk]. rewrite re_match_greedy.
      destruct (m' +:+ r) as [|b t]; [by eexists|].
      destruct (re_match (AnyGreedy :: p) t); by eexists.
    + rewrite sapp_cons, re_match_greedy. destruct IHa as [k ->]. by eexists.
  - intros [Hm|(m' & -> & Hm)]; rewrite re_match_opt.
    + destruct (IH _ r Hm) as [k Hk]. rewrite Hk.
      destruct (m +:+ r) as [|b t]; [by eexists|].
      destruct (Ascii.eqb c b); [|by eexists].
      destruct (re_match p t); by eexists.
    + rewrite sapp_cons, Ascii.eqb_refl. destruct (IH _ r Hm) as [k ->]. by eexists.
Qed.

Lemma search_unfold p s :
  search p s =
    match re_match p s with
    | Some _ => true
    | None => match s with "" => false | String _ s' => search p s' end
    end.
Proof. by destruct s. Qed.

Lemma search_spec p s :
  search p s = true <-> exists a m r, s = a +:+ m +:+ r /\ lang p m.
Proof.
  split.
  - induction s as [|c s IH]; rewrite search_unfold.
    + destruct (re_match p "") as [k|] eqn:E; [|done]. intros _.
      destruct (re_match_sound _ _ _ E) as (m & r & -> & _ & Hm). by exists "", m, r.
    + destruct (re_match p (String c s)) as [k|] eqn:E.
      * intros _. destruct (re_match_sound _ _ _ E) as (m & r & -> & _ & Hm).
        by exists "", m, r.
      * intros (a & m & r & -> & Hm)%IH. by exists (String c a), m, r.
  - intros (a & m & r & -> & Hm). induction a as [|c a IH]; rewrite search_unfold.
    + change ("" +:+ m +:+ r) with (m +:+ r).
      by destruct (re_match_complete _ _ r Hm) as [k ->].
    + rewrite sapp_cons. destruct (re_match p _); [done|]. exact IH.
Qed.

(** ** The scans: which matches [findall] and [sub] pick *)

Lemma fits_inside c l : notin c l = true -> forall a t r,
  strip_prefix l (a +:+ String c t) = Some r -> exists r', a = l +:+ r'.
Proof.
  induction l as [|y l IH]; intros Hl a t r; [by exists a|].
  simpl in Hl. apply andb_true_iff in Hl as [Hy Hl].
  destruct a as [|z a]; simpl.
  - change ("" +:+ String c t) with (String c t). simpl.
    rewrite Ascii.eqb_sym. by destruct (Ascii.eqb c y).
  - destruct (Ascii.eqb_spec y z) as [->|]; [|done].
    intros (r' & ->)%IH; [|done]. by exists r'.
Qed.

Lemma no_straddle l a t :
  fresh_head l = true -> contains l a = false ->
  forall a1 a2, a = a1 +:+ a2 -> a2 <> "" -> strip_prefix l (a2 +:+ l +:+ t) = None.
Proof.
  intros Hl Ha a1 a2 -> Hne.
  destruct (strip_prefix l (a2 +:+ l +:+ t)) as [r|] eqn:E; [|done]. exfalso.
  destruct l as [|c l]; [done|]. destruct a2 as [|x a2]; [done|].
  rewrite !sapp_cons in E. simpl in E.
  destruct (Ascii.eqb_spec c x) as [<-|]; [|done].
  apply fits_inside in E as [r' ->]; [|done].
  apply (contains_false_suffix _ a1) in Ha as Hs.
  change (String c (l +:+ r')) with (String c l +:+ r') in Hs.
  by rewrite strip_prefix_app in Hs.
Qed.

Lemma take_app m t : take (String.length m) (m +:+ t) = m.
Proof. induction m as [|c m IH]; [by destruct t|]. rewrite sapp_cons. simpl. by rewrite IH. Qed.

Section Scan.
Variable p : regex.

Lemma findall_from_0 s :
  findall_from p 0 s =
    match re_match p s with
    | Some n =>
        take n s ::
          match s with "" => [] | String _ s' => findall_from p (Nat.pred n) s' end
    | None => match s with "" => [] | String _ s' => findall_from p 0 s' end
    end.
Proof. by destruct s. Qed.

Lemma findall_from_skip a s :
  findall_from p (String.length a) (a +:+ s) = findall_from p 0 s.
Proof. induction a as [|c a IH]; [done|]. rewrite sapp_cons. exact IH. Qed.

Lemma findall_from_free a t :
  (forall a1 a2, a = a1 +:+ a2 -> a2 <> "" -> re_match p (a2 +:+ t) = None) ->
  findall_from p 0 (a +:+ t) = findall_from p 0 t.
Proof.
  induction a as [|c a IH]; intros H; [done|].
  rewrite findall_from_0, (H "" (String c a)) by done. rewrite sapp_cons.
  apply IH. intros a1 a2 -> ?. by apply (H (String c a1) a2).
Qed.

Lemma findall_from_hit m t :
  m <> "" -> re_match p (m +:+ t) = Some (String.length m) ->
  findall_from p 0 (m +:+ t) = m :: findall_from p 0 t.
Proof.
  intros Hm E. rewrite findall_from_0, E, take_app. f_equal.
  destruct m as [|c m]; [done|]. rewrite sapp_cons. simpl. apply findall_from_skip.
Qed.

Lemma findall_nil s : findall p s = [] <-> search p s = false.
Proof.
  unfold findall. induction s as [|c s IH]; rewrite findall_from_0, search_unfold;
    destruct (re_match p _); try done.
Qed.

Variable repl : string.

Lemma sub_from_0 s :
  sub_from p repl 0 s =
    match re_match p s with
    | Some n =>
        repl +:+
          match s with
          | "" => ""
          | String c s' =>
              match n with
              | 0 => String c (sub_from p repl 0 s')
              | S k => sub_from p repl k s'
              end
          end
    | None => match s with "" => "" | String c s' => String c (sub_from p repl 0 s') end
    end.
Proof. by destruct s. Qed.

Lemma sub_from_skip a s :
  sub_from p repl (String.length a) (a +:+ s) = sub_from p repl 0 s.
Proof. induction a as [|c a IH]; [done|]. rewrite sapp_cons. exact IH. Qed.

Lemma sub_from_free a t :
  (forall a1 a2, a = a1 +:+ a2 -> a2 <> "" -> re_match p (a2 +:+ t) = None) ->
  sub_from p repl 0 (a +:+ t) = a +:+ sub_from p repl 0 t.
Proof.
  induction a as [|c a IH]; intros H; [done|].
  rewrite sub_from_0, (H "" (String c a)) by done. rewrite !sapp_cons. f_equal.
  apply IH. intros a1 a2 -> ?. by apply (H (String c a1) a2).
Qed.

Lemma sub_from_hit m t :
  m <> "" -> re_match p (m +:+ t) = Some (String.length m) ->
  sub_from p repl 0 (m +:+ t) = repl +:+ sub_from p repl 0 t.
Proof.
  intros Hm E. rewrite sub_from_0, E. f_equal.
  destruct m as [|c m]; [done|]. rewrite sapp_cons. simpl. apply sub_from_skip.
Qed.
End Scan.

Lemma re_match_literal l t : re_match [Lit l] (l +:+ t) = Some (String.length l).
Proof. rewrite re_match_lit, strip_prefix_app. simpl. f_equal. lia. Qed.

Lemma re_match_literal_None l s : strip_prefix l s = None -> forall p, re_match (Lit l :: p) s = None.
Proof. intros E p. by rewrite re_match_lit, E. Qed.

Lemma join_cons sep x y rest :
  join sep (x :: y :: rest) = x +:+ sep +:+ join sep (y :: rest).
Proof. reflexivity. Qed.

Lemma sub_join l repl pieces :
  fresh_head l = true ->
  Forall (fun x => contains l x = false) pieces ->
  sub [Lit l] repl (join l pieces) = join (repl) pieces.
Proof.
  intros Hl. unfold sub.
  assert (l <> "") as Hne by (by destruct l).
  assert (sub_from [Lit l] repl 0 "" = "") as Hnil by (by destruct l).
  induction 1 as [|x pieces Hx Hrest IH]; [done|].
  destruct pieces as [|y rest].
  - change (join ?s [x]) with x. rewrite <-(sapp_nil_r x) at 1.
    rewrite sub_from_free, Hnil, sapp_nil_r; [done|].
    intros a1 a2 -> _. apply re_match_literal_None.
    rewrite sapp_nil_r. by eapply contains_false_suffix.
  - rewrite !join_cons, sub_from_free.
    + rewrite sub_from_hit, IH; [done..|]. apply re_match_literal.
    + intros a1 a2 E ?. apply re_match_literal_None. by eapply no_straddle.
Qed.

Lemma lazy_literal c t : forall b,
  (forall b1 b2, b = b1 +:+ b2 -> b2 <> "" -> strip_prefix c (b2 +:+ c +:+ t) = None) ->
  re_match [AnyLazy; Lit c] (b +:+ c +:+ t) = Some (String.length b + String.length c).
Proof.
  induction b as [|x b IH]; intros H; rewrite re_match_lazy.
  - change ("" +:+ c +:+ t) with (c +:+ t). by rewrite re_match_literal.
  - rewrite (re_match_literal_None _ _ (H "" (String x b) eq_refl ltac:(done))).
    rewrite sapp_cons, IH; [done|]. intros b1 b2 -> ?. by apply (H (String x b1) b2).
Qed.

Lemma re_match_fragment o c b t :
  fresh_head c = true -> contains c b = false ->
  re_match [Lit o; AnyLazy; Lit c] ((o +:+ b +:+ c) +:+ t) = Some (String.length (o +:+ b +:+ c)).
Proof.
  intros Hc Hb. rewrite !sapp_assoc, re_match_lit, strip_prefix_app, lazy_literal.
  - by rewrite !slength_app.
  - intros b1 b2 ??. by eapply no_straddle.
Qed.

Lemma findall_assemble o c parts tail :
  fresh_head o = true -> fresh_head c = true ->
  Forall (fun gb => contains o gb.1 = false /\ contains c gb.2 = false) parts ->
  search [Lit o; AnyLazy; Lit c] tail = false ->
  findall [Lit o; AnyLazy; Lit c] (assemble o c parts tail)
  = map (fun gb => o +:+ gb.2 +:+ c) parts.
Proof.
  intros Ho Hc Hparts Htail. unfold findall.
  induction Hparts as [|[g b] parts [Hg Hb] _ IH]; simpl.
  - by apply findall_nil.
  - rewrite findall_from_free.
    + rewrite <-!sapp_assoc, findall_from_hit, IH.
      * by rewrite !sapp_assoc.
      * by destruct o.
      * rewrite !sapp_assoc, <-(sapp_assoc b), <-(sapp_assoc o). by apply re_match_fragment.
    + intros a1 a2 ??. apply re_match_literal_None. by eapply no_straddle.
Qed.

(** ** Every text is cut by the scans in one of the forms above *)

Lemma free_of_suffixes l a t :
  l <> "" ->
  (forall a1 a2, a = a1 +:+ a2 -> a2 <> "" -> strip_prefix l (a2 +:+ t) = None) ->
  contains l a = false.
Proof.
  intros Hl H. destruct (contains l a) eqn:E; [|done].
  apply contains_spec in E as (a1 & a3 & ->).
  specialize (H a1 (l +:+ a3) eq_refl). rewrite sapp_assoc, strip_prefix_app in H.
  discriminate H. by destruct l.
Qed.

Lemma first_occurrence l s :
  l <> "" -> contains l s = true ->
  exists a b, s = a +:+ l +:+ b /\ contains l a = false.
Proof.
  intros Hl. induction s as [|c s IH]; rewrite contains_unfold.
  - destruct (strip_prefix l "") as [b|] eqn:E; [|done]. intros _.
    apply strip_prefix_spec in E. exists "", b. split; [done|]. by destruct l.
  - destruct (strip_prefix l (String c s)) as [b|] eqn:E.
    + intros _. apply strip_prefix_spec in E. exists "", b. split; [done|]. by destruct l.
    + intros (a & b & -> & Ha)%IH. exists (String c a), b. split; [done|].
      rewrite contains_unfold, Ha.
      destruct (strip_prefix l (String c a)) as [r|] eqn:E'; [|done].
      apply strip_prefix_spec in E'. rewrite <-sapp_cons, E', sapp_assoc, strip_prefix_app in E.
      done.
Qed.

Lemma join_covers l s :
  l <> "" ->
  exists pieces,
    pieces <> [] /\ s = join l pieces /\ Forall (fun x => contains l x = false) pieces.
Proof.
  intros Hl. remember (String.length s) as n eqn:Hn. revert s Hn.
  induction n as [n IH] using lt_wf_ind. intros s ->.
  destruct (contains l s) eqn:E.
  - apply first_occurrence in E as (a & b & -> & Ha); [|done].
    destruct (IH (String.length b)) with (s := b) as (pieces & Hne & -> & Hfree); [|done|].
    { rewrite !slength_app. destruct l; [done|]. simpl. lia. }
    exists (a :: pieces). split; [done|]. split; [|by constructor].
    by destruct pieces.
  - exists [s]. split; [done|]. split; [done|]. by repeat constructor.
Qed.

Lemma search_first p s :
  search p s = true ->
  exists g s' n,
    s = g +:+ s' /\ re_match p s' = Some n
    /\ forall g1 g2, g = g1 +:+ g2 -> g2 <> "" -> re_match p (g2 +:+ s') = None.
Proof.
  induction s as [|c s IH]; rewrite search_unfold.
  - destruct (re_match p "") as [n|] eqn:E; [|done]. intros _.
    exists "", "", n. split; [done|]. split; [done|]. intros [|] [|]; done.
  - destruct (re_match p (String c s)) as [n|] eqn:E.
    + intros _. exists "", (String c s), n. split; [done|]. split; [done|].
      intros [|] [|]; done.
    + intros (g & s' & n & -> & Hn & Hfree)%IH.
      exists (String c g), s', n. split; [done|]. split; [done|].
      intros [|x g1] g2 Hg Hne.
      * change ("" +:+ g2) with g2 in Hg. by subst g2.
      * rewrite sapp_cons in Hg. injection Hg as _ ->. by apply (Hfree g1).
Qed.

Lemma lazy_first c t k :
  re_match [AnyLazy; Lit c] t = Some k ->
  exists b rest,
    t = b +:+ c +:+ rest
    /\ forall b1 b2, b = b1 +:+ b2 -> b2 <> "" -> strip_prefix c (b2 +:+ c +:+ rest) = None.
Proof.
  revert k. induction t as [|x t IH]; intros k; rewrite re_match_lazy, re_match_lit.
  - destruct (strip_prefix c "") as [r|] eqn:E; [|done]. intros _.
    apply strip_prefix_spec in E. exists "", r. split; [done|]. intros [|] [|]; done.
  - destruct (strip_prefix c (String x t)) as [r|] eqn:E.
    + intros _. apply strip_prefix_spec in E. exists "", r. split; [done|].
      intros [|] [|]; done.
    + destruct (re_match [AnyLazy; Lit c] t) as [k'|] eqn:E'; [|done]. intros _.
      destruct (IH _ eq_refl) as (b & rest & -> & Hfree).
      exists (String x b), rest. split; [done|]. intros [|y b1] b2 Hb Hne.
      * change ("" +:+ b2) with b2 in Hb. by subst b2.
      * rewrite sapp_cons in Hb. injection Hb as _ ->. by apply (Hfree b1).
Qed.

Lemma assemble_covers o c s :
  o <> "" -> c <> "" ->
  exists parts tail,
    s = assemble o c parts tail
    /\ Forall (fun gb => contains o gb.1 = false /\ contains c gb.2 = false) parts
    /\ search [Lit o; AnyLazy; Lit c] tail = false.
Proof.
  intros Ho Hc. remember (String.length s) as n eqn:Hn. revert s Hn.
  induction n as [n IH] using lt_wf_ind. intros s ->.
  destruct (search [Lit o; AnyLazy; Lit c] s) eqn:E; [|by exists [], s].
  apply search_first in E as (g & s' & k & -> & Hk & Hfree).
  rewrite re_match_lit in Hk.
  destruct (strip_prefix o s') as [t|] eqn:Eo; [|done].
  apply strip_prefix_spec in Eo as ->.
  destruct (re_match [AnyLazy; Lit c] t) as [k'|] eqn:Et; [|done].
  apply lazy_first in Et as (b & rest & -> & Hb).
  destruct (IH (String.length rest)) with (s := rest) as (parts & tail & -> & Hparts & Htail);
    [|done|].
  { rewrite !slength_app. destruct o; [done|]. simpl. lia. }
  exists ((g, b) :: parts), tail. split; [done|]. split; [|done].
  constructor; [|done]. simpl. split.
  - destruct (contains o g) eqn:Eg; [|done]. exfalso.
    apply contains_spec in Eg as (g1 & g3 & ->).
    specialize (Hfree g1 (o +:+ g3) eq_refl ltac:(by destruct o)).
    destruct (re_match_complete [Lit o; AnyLazy; Lit c]
                (o +:+ (g3 +:+ o +:+ b) +:+ c)
                (assemble o c parts tail)) as [m Hm].
    { simpl. eexists; split; [done|]. eexists _, _; split; [done|].
      exists "". by rewrite sapp_nil_r. }
    rewrite !sapp_assoc in Hm. rewrite !sapp_assoc in Hfree. congruence.
  - by eapply free_of_suffixes.
Qed.

(** ** The patterns of [handle_raw_dispatch] *)

Lemma search_envelope raw : search envelope_re raw = true <-> envelope_shape raw.
Proof.
  rewrite search_spec. unfold envelope_re, envelope_shape. simpl. split.
  - intros (a & m & r & -> & m1 & -> & b & m2 & -> & m3 & -> & c & m4 & -> & m5 & -> & H).
    exists a, b, c, (m5 +:+ r). by rewrite !sapp_assoc.
  - intros (a & b & c & d & ->).
    exists a, ("<rpc-reply>" +:+ b +:+ "</rpc-reply>" +:+ c +:+ "</hello"), d.
    split; [by rewrite !sapp_assoc|].
    eexists; split; [done|]. eexists _, _; split; [done|]. eexists; split; [done|].
    eexists _, _; split; [done|]. exists "". split; [by rewrite sapp_nil_r|]. by left.
Qed.

Lemma search_rpc_error raw : search rpc_error_re raw = true <-> has_fragment raw.
Proof.
  rewrite search_spec. unfold rpc_error_re, has_fragment, rpc_error_fragment. simpl. split.
  - intros (a & m & r & -> & m1 & -> & b & m2 & -> & m3 & -> & ->).
    exists a, b, r. by rewrite sapp_nil_r.
  - intros (x & b & z & ->). exists x, ("<rpc-error>" +:+ b +:+ "</rpc-error>"), z.
    split; [done|]. eexists; split; [done|]. eexists _, _; split; [done|].
    exists "". by rewrite sapp_nil_r.
Qed.

Lemma not_contains needle hay : contains needle hay = false <-> ~ occurs needle hay.
Proof. rewrite <-contains_spec. by destruct (contains needle hay). Qed.

Lemma every_text_is_join l s :
  l <> "" ->
  exists pieces, s = join l pieces /\ Forall (fun piece => ~ occurs l piece) pieces.
Proof.
  intros Hl. destruct (join_covers l s Hl) as (pieces & _ & -> & Hfree).
  exists pieces. split; [done|]. eapply Forall_impl; [exact Hfree|].
  intros x. apply not_contains.
Qed.

(** Every reply is, in one way, gaps and fragments in turn and a tail
    without a fragment: [rpc_errors_extracted] below speaks of every reply
    that has a fragment. *)
Lemma every_reply_is_reply_of raw :
  exists parts tail,
    raw = reply_of parts tail
    /\ Forall (fun gb => ~ occurs "<rpc-error>" gb.1 /\ ~ occurs "</rpc-error>" gb.2) parts
    /\ ~ has_fragment tail.
Proof.
  destruct (assemble_covers "<rpc-error>" "</rpc-error>" raw) as (parts & tail & -> & Hp & Ht);
    [done..|].
  exists parts, tail. split; [done|]. split.
  - eapply Forall_impl; [exact Hp|]. intros gb [??]. split; by apply not_contains.
  - intros H%search_rpc_error. unfold rpc_error_re in H. congruence.
Qed.

(** ** The stylesheet *)

Lemma forallb_spec {A} (f : A -> bool) l :
  forallb f l = true <-> Forall (fun x => f x = true) l.
Proof.
  induction l as [|x l IH]; simpl; [by split|].
  rewrite andb_true_iff, IH, Forall_cons. done.
Qed.

Lemma forallb_concat_map {A B} (f : B -> bool) (g : A -> list B) l :
  forallb f (concat (map g l)) = forallb (fun x => forallb f (g x)) l.
Proof. induction l as [|x l IH]; simpl; [done|]. by rewrite forallb_app, IH. Qed.

Lemma forallb_ext_Forall {A} (f g : A -> bool) l :
  Forall (fun x => f x = g x) l -> forallb f l = forallb g l.
Proof. induction 1 as [|x l E _ IH]; simpl; [done|]. by rewrite E, IH. Qed.

Lemma all_elements_in_tree ns n :
  all_elements_in ns n = forallb (all_elements_in ns) (element_tree n).
Proof.
  induction n as [tag attrib children IH| | |] using node_nested_ind; simpl; [|done..].
  rewrite andb_true_r, forallb_concat_map. f_equal. by apply forallb_ext_Forall.
Qed.

(** Merging text touches text nodes only. *)
Lemma merge_text_cons_other n l :
  (forall s, n <> Text s) -> merge_text (n :: l) = n :: merge_text l.
Proof. intros H. destruct n; [done| |done..]. by destruct (H s). Qed.

Lemma merge_text_forallb (p : node -> bool) l :
  (forall s, p (Text s) = true) -> forallb p (merge_text l) = forallb p l.
Proof.
  intros Hp. induction l as [|n l IH]; [done|].
  destruct n as [tag attrib children|s|c|t d]; cbn [merge_text forallb]; rewrite <-?IH; try done.
  rewrite Hp. cbn [andb]. destruct (String.eqb s ""); [done|].
  destruct (merge_text l) as [|[| | |] rest]; cbn [forallb]; by rewrite ?Hp.
Qed.

Lemma merge_text_concat_map {B} (f : node -> list B) l :
  (forall s, f (Text s) = []) -> concat (map f (merge_text l)) = concat (map f l).
Proof.
  intros Hf. induction l as [|n l IH]; [done|].
  destruct n as [tag attrib children|s|c|t d]; cbn [merge_text map concat]; rewrite <-?IH;
    try done.
  rewrite Hf. cbn [app]. destruct (String.eqb s ""); [done|].
  destruct (merge_text l) as [|[| | |] rest]; cbn [map concat]; by rewrite ?Hf.
Qed.

Lemma apply_templates_base n :
  forallb (all_elements_in BASE_NS_1_0) (apply_templates n) = true.
Proof.
  induction n as [tag attrib children IH| | |] using node_nested_ind; simpl; [|done..].
  rewrite andb_true_r, merge_text_forallb by done.
  rewrite forallb_app, forallb_concat_map. apply andb_true_iff. split.
  - apply forallb_spec, Forall_map, Forall_true. done.
  - by apply forallb_spec.
Qed.

Lemma add_ns_base doc : forallb (all_elements_in BASE_NS_1_0) (add_ns doc) = true.
Proof.
  unfold add_ns. rewrite merge_text_forallb, forallb_concat_map by done.
  apply forallb_spec, Forall_true.
  intros n. apply apply_templates_base.
Qed.

Lemma same_elements_base t doc :
  same_elements [t] (add_ns doc) -> all_elements_in BASE_NS_1_0 t = true.
Proof.
  unfold same_elements. simpl. rewrite (right_id_L [] (++)). intros E.
  rewrite all_elements_in_tree, E, forallb_concat_map.
  rewrite <-(add_ns_base doc). apply forallb_ext_Forall, Forall_true.
  intros n. symmetry. apply all_elements_in_tree.
Qed.

(** What [re.findall] reports in [handle_raw_dispatch]: every reply is
    gaps without an opening tag and fragments in turn, then a tail without
    a fragment, each fragment running from its opening tag to the first
    closing tag after it; the list is these fragments, in this order. *)
Theorem findall_reports_the_fragments raw :
  exists parts tail,
    raw = reply_of parts tail
    /\ Forall (fun gb => ~ occurs "<rpc-error>" gb.1 /\ ~ occurs "</rpc-error>" gb.2) parts
    /\ ~ has_fragment tail
    /\ findall rpc_error_re raw = map (fun gb => rpc_error_fragment gb.2) parts.
Proof.
  destruct (every_reply_is_reply_of raw) as (parts & tail & -> & Hparts & Htail).
  exists parts, tail. split; [done|]. split; [done|]. split; [done|].
  apply (findall_assemble "<rpc-error>" "</rpc-error>"); [done..| |].
  - eapply Forall_impl; [exact Hparts|]. intros gb [??]. by rewrite !not_contains.
  - destruct (search rpc_error_re tail) eqn:E; [|done]. by apply search_rpc_error in E.
Qed.

Lemma merge_text_merged l : merged (merge_text l) = true.
Proof.
  induction l as [|n l IH]; [done|].
  destruct n as [tag attrib children|s|c|t d]; cbn [merge_text merged]; try done.
  destruct (String.eqb s "") eqn:E; [done|].
  destruct (merge_text l) as [|[tag attrib children|t|c|t d] rest]; cbn [merged] in *;
    rewrite ?E; try done.
  apply andb_true_iff in IH as [[_ ->]%andb_true_iff ->].
  destruct s as [|x s]; [done|]. by rewrite sapp_cons.
Qed.

Lemma merged_fixed l : merged l = true -> merge_text l = l.
Proof.
  induction l as [|n l IH]; [done|].
  destruct n as [tag attrib children|s|c|t d]; cbn [merge_text merged];
    try (by intros ->%IH).
  intros [[Hs Hnext]%andb_true_iff Hl%IH]%andb_true_iff. rewrite Hl.
  apply negb_true_iff in Hs as ->. by destruct l as [|[| | |] l].
Qed.

Lemma join_empty_cons x l : join "" (x :: l) = x +:+ join "" l.
Proof. destruct l; [by rewrite sapp_nil_r|done]. Qed.

Lemma join_empty_app l1 l2 : join "" (l1 ++ l2) = join "" l1 +:+ join "" l2.
Proof.
  induction l1 as [|x l1 IH]; [done|].
  change ((x :: l1) ++ l2)%list with (x :: (l1 ++ l2))%list.
  by rewrite !join_empty_cons, IH, sapp_assoc.
Qed.

Lemma merge_text_text_of l : join "" (map text_of (merge_text l)) = join "" (map text_of l).
Proof.
  induction l as [|n l IH]; [done|].
  destruct n as [tag attrib children|s|c|t d]; cbn [merge_text map];
    rewrite ?join_empty_cons, <-?IH; try done.
  destruct (String.eqb_spec s "") as [->|_]; [done|].
  destruct (merge_text l) as [|[| | |] rest]; cbn [map]; rewrite ?join_empty_cons; try done.
  cbn [text_of]. by rewrite sapp_assoc.
Qed.

Lemma text_of_apply_templates n : join "" (map text_of (apply_templates n)) = text_of n.
Proof.
  induction n as [tag attrib children IH| | |] using node_nested_ind; [|done..].
  cbn [apply_templates map text_of]. rewrite join_empty_cons, sapp_nil_r.
  change (join "" [] +:+ ?x) with x.
  rewrite merge_text_text_of, map_app, join_empty_app. f_equal.
  - by rewrite map_map.
  - clear -IH. induction IH as [|c children Hc _ IHc]; [done|].
    cbn [map concat]. by rewrite map_app, join_empty_app, join_empty_cons, Hc, IHc.
Qed.

Lemma add_ns_text doc : join "" (map text_of (add_ns doc)) = join "" (map text_of doc).
Proof.
  unfold add_ns. rewrite merge_text_text_of.
  induction doc as [|n doc IH]; [done|].
  cbn [map concat]. by rewrite map_app, join_empty_app, join_empty_cons, text_of_apply_templates, IH.
Qed.

Lemma apply_templates_repaired n : Forall (fun m => repaired m = true) (apply_templates n).
Proof.
  induction n as [tag attrib children IH| | |] using node_nested_ind;
    [|by repeat constructor..].
  cbn [apply_templates]. constructor; [|constructor].
  cbn [repaired namespace]. rewrite !bool_decide_eq_true_2, merge_text_merged by done.
  rewrite merge_text_forallb by done. cbn [andb].
  apply forallb_spec, Forall_app. split.
  - by apply Forall_map, Forall_true.
  - by apply Forall_concat, Forall_map.
Qed.

Lemma add_ns_repaired doc : Forall (fun n => repaired n = true) (add_ns doc).
Proof.
  unfold add_ns. apply forallb_spec. rewrite merge_text_forallb by done.
  apply forallb_spec, Forall_concat, Forall_map, Forall_true, apply_templates_repaired.
Qed.

(** What the stylesheet of [handle_raw_dispatch] makes of a document,
    whatever the document.  No element of the result is outside the NETCONF
    base namespace.  The result holds elements and text only: no element
    of it has an attribute, and there is no comment and no processing
    instruction in it.  Its text is the text of the document with the
    value of every attribute put where the element begins: attribute values
    become text.  A root element comes out as one root element of the same
    local name. *)
Theorem stylesheet_qualifies_every_element doc :
  Forall (fun n => all_elements_in BASE_NS_1_0 n = true) (add_ns doc)
  /\ Forall (fun n => repaired n = true) (add_ns doc)
  /\ join "" (map text_of (add_ns doc)) = join "" (map text_of doc)
  /\ (forall tag attrib children,
        exists kids,
          add_ns (ElementTree (Elem tag attrib children))
          = [Elem (mkQName (Some BASE_NS_1_0) (localname tag)) [] kids]
          /\ join "" (map text_of kids)
             = join "" (map snd attrib) +:+ join "" (map text_of children)).
Proof.
  split; [apply forallb_spec, add_ns_base|]. split; [apply add_ns_repaired|].
  split; [apply add_ns_text|].
  intros tag attrib children. eexists. split; [reflexivity|].
  pose proof (text_of_apply_templates (Elem tag attrib children)) as H.
  cbn [apply_templates map text_of] in H.
  rewrite join_empty_cons, sapp_nil_r in H. exact H.
Qed.

(** ** [handle_raw_dispatch] *)

Section RawDispatchFacts.
Variable XML : string -> option node.
Variable tostring : document -> string.
Variable to_ele : string -> option node.

Local Abbreviation handle := (handle_raw_dispatch XML tostring to_ele).
Local Abbreviation repair := (repair_fragment XML tostring).

Lemma repaired_by_repair err t :
  repaired_by XML tostring err t -> repair err = Some (mkRPCError t None).
Proof.
  intros (d & Hd & Ht & _). unfold repair_fragment. rewrite Hd. simpl. by rewrite Ht.
Qed.

Lemma handle_routing_engine raw :
  occurs "routing-engine" raw -> handle raw = Some (PyStr (sub ok_re ok_repl raw)).
Proof. intros H%contains_spec. unfold handle_raw_dispatch. by rewrite H. Qed.

Lemma handle_extract raw :
  ~ occurs "routing-engine" raw -> envelope_shape raw ->
  handle raw =
    match findall rpc_error_re raw with
    | [] => Some PyNone
    | errs =>
        err_list ← mapM repair errs;
        root ← to_ele ("<rpc-reply>" +:+ join "" errs +:+ "</rpc-reply>");
        Some (PyError (mkRPCError root (Some err_list)))
    end.
Proof.
  intros H1%not_contains H2%search_envelope. unfold handle_raw_dispatch.
  by rewrite H1, H2.
Qed.

(** C4. A raw reply in which neither [routing-engine] occurs nor the
    envelope shape [<rpc-reply>...</rpc-reply>...</hello] makes
    [handle_raw_dispatch] return [False]: no exception, no text, no error
    object. *)
Theorem no_marker_not_applicable raw :
  ~ occurs "routing-engine" raw -> ~ envelope_shape raw ->
  handle raw = Some PyFalse
  /\ (forall s, handle raw <> Some (PyStr s))
  /\ (forall e, handle raw <> Some (PyError e)).
Proof.
  intros Hre%not_contains Henv.
  assert (search envelope_re raw = false) as Hsearch.
  { destruct (search envelope_re raw) eqn:E; [|done]. by apply search_envelope in E. }
  unfold handle_raw_dispatch. rewrite Hre, Hsearch. by repeat split.
Qed.

(** C10. A raw reply without [routing-engine] that has the envelope shape
    but no [<rpc-error>...</rpc-error>] fragment makes [handle_raw_dispatch]
    fall off its end and return [None], which is not the [False] the
    no-pattern branch returns (as it does on the empty reply): the caller
    can see two different sentinels. *)
Theorem envelope_without_fragment_returns_None raw :
  ~ occurs "routing-engine" raw -> envelope_shape raw -> ~ has_fragment raw ->
  handle raw = Some PyNone
  /\ handle "" = Some PyFalse
  /\ PyNone <> PyFalse.
Proof.
  intros H1 H2 H3. split; [|done].
  rewrite handle_extract by done.
  assert (findall rpc_error_re raw = []) as ->; [|done].
  apply findall_nil. destruct (search rpc_error_re raw) eqn:E; [|done].
  by apply search_rpc_error in E.
Qed.

(** C3 (as amended). A raw reply in which [routing-engine] occurs is, in
    one way, pieces without [<ok/>] joined by [<ok/>]; [handle_raw_dispatch]
    returns the same pieces joined by the closing tag, a line feed and
    [<ok/>]: the closing tag goes before every [<ok/>], and everything else
    stays as and where it was (a reply without [<ok/>] comes back as it
    is).  The reply [<routing-engine><ok/>] of the scenario comes back as
    the scenario says. *)
Theorem routing_engine_repair raw :
  occurs "routing-engine" raw ->
  (exists pieces,
     raw = join "<ok/>" pieces
     /\ Forall (fun piece => ~ occurs "<ok/>" piece) pieces
     /\ handle raw
        = Some (PyStr (join ("</routing-engine>" +:+ LF +:+ "<ok/>") pieces)))
  /\ handle "<routing-engine><ok/>"
     = Some (PyStr ("<routing-engine></routing-engine>" +:+ LF +:+ "<ok/>")).
Proof.
  intros Hre. split; [|done].
  destruct (every_text_is_join "<ok/>" raw) as (pieces & -> & Hp); [done|].
  exists pieces. split; [done|]. split; [done|].
  rewrite handle_routing_engine by done. do 2 f_equal.
  apply (sub_join "<ok/>"); [done|].
  eapply Forall_impl; [exact Hp|]. intros x. apply not_contains.
Qed.

(** C1 (as amended). Take a raw reply without [routing-engine], of the
    envelope shape, made of N >= 1 fragments [<rpc-error>body</rpc-error>]
    (each body ending at the first closing tag) with gaps before them that
    hold no opening tag, and a tail without a fragment.  If every fragment
    parses, its namespace-qualified copy parses again with the same
    elements, and the fragments wrapped in [<rpc-reply>] parse to [root],
    then [handle_raw_dispatch] returns the aggregate [RPCError] over [root]
    (the unrepaired fragments in their envelope) carrying exactly N entries,
    one per fragment and in the fragments' order, and in the document of
    every entry each element is in the NETCONF base namespace. *)
Theorem rpc_errors_extracted parts tail details root :
  let raw := reply_of parts tail in
  let errs := map (fun gb => rpc_error_fragment gb.2) parts in
  parts <> [] ->
  Forall (fun gb => ~ occurs "<rpc-error>" gb.1 /\ ~ occurs "</rpc-error>" gb.2) parts ->
  ~ has_fragment tail ->
  ~ occurs "routing-engine" raw ->
  envelope_shape raw ->
  Forall2 (repaired_by XML tostring) errs details ->
  to_ele (envelope_of errs) = Some root ->
  handle raw
  = Some (PyError (mkRPCError root (Some (map (fun t => mkRPCError t None) details))))
  /\ length details = length parts
  /\ Forall (fun t => all_elements_in BASE_NS_1_0 t = true) details.
Proof.
  intros raw errs Hne Hparts Htail Hre Henv Hrep Hroot.
  assert (findall rpc_error_re raw = errs) as Hfind.
  { apply (findall_assemble "<rpc-error>" "</rpc-error>"); [done..| |].
    - eapply Forall_impl; [exact Hparts|]. intros gb [??]. by rewrite !not_contains.
    - destruct (search rpc_error_re tail) eqn:E; [|done]. by apply search_rpc_error in E. }
  assert (length errs = length parts) as Hlen by apply length_map.
  clearbody raw errs. split; [|split].
  - rewrite handle_extract, Hfind by done.
    assert (mapM repair errs = Some (map (fun t => mkRPCError t None) details)) as Hm.
    { apply mapM_Some. apply Forall2_fmap_r. eapply Forall2_impl; [exact Hrep|].
      intros ??. apply repaired_by_repair. }
    destruct errs as [|e errs'].
    + by destruct parts.
    + cbv zeta. rewrite Hm. cbv [mbind option_bind].
      unfold envelope_of in Hroot. by rewrite Hroot.
  - apply Forall2_length in Hrep. congruence.
  - clear -Hrep. induction Hrep as [|err t ?? (d & _ & _ & E) _ IH]; constructor; [|done].
    by eapply same_elements_base.
Qed.

Lemma not_envelope raw : search envelope_re raw = false -> ~ envelope_shape raw.
Proof. intros E H%search_envelope. congruence. Qed.

Lemma not_fragment raw : search rpc_error_re raw = false -> ~ has_fragment raw.
Proof. intros E H%search_rpc_error. congruence. Qed.

(** C2 (as amended). When the envelope shape is found in a raw reply
    without [routing-engine], and the reply has fragments that all get
    through the loop and an envelope that parses, [handle_raw_dispatch]
    returns the error object and nothing with it: the result is not a text,
    and every reply with the same fragments gives the same result, so the
    raw text is no part of it.  For no reply is the result both a text (the
    repair) and an error object (the extraction). *)
Theorem extraction_returns_error_only raw errs err_list root :
  ~ occurs "routing-engine" raw -> envelope_shape raw ->
  findall rpc_error_re raw = errs -> errs <> [] ->
  mapM repair errs = Some err_list ->
  to_ele (envelope_of errs) = Some root ->
  handle raw = Some (PyError (mkRPCError root (Some err_list)))
  /\ (forall s, handle raw <> Some (PyStr s))
  /\ (forall raw', ~ occurs "routing-engine" raw' -> envelope_shape raw' ->
        findall rpc_error_re raw' = errs -> handle raw' = handle raw)
  /\ (forall raw' s e, handle raw' = Some (PyStr s) -> handle raw' <> Some (PyError e)).
Proof.
  intros Hre Henv Hfind Hne Hm Hroot.
  assert (handle raw = Some (PyError (mkRPCError root (Some err_list)))) as Hraw.
  { rewrite handle_extract, Hfind by done.
    destruct errs as [|e errs']; [done|]. cbv zeta. rewrite Hm. cbv [mbind option_bind].
    unfold envelope_of in Hroot. by rewrite Hroot. }
  split; [done|]. split; [by rewrite Hraw|]. split.
  - intros raw' Hre' Henv' Hfind'.
    rewrite !handle_extract by done. by rewrite Hfind, Hfind'.
  - intros raw' s e ->. done.
Qed.

End RawDispatchFacts.

(** ** The schema reply *)

Lemma select_data_ge k l i el : (i, el) ∈ select_data k l -> k <= i.
Proof.
  revert k. induction l as [|c rest IH]; intros k; simpl; [by intros ?%elem_of_nil|].
  rewrite elem_of_app. intros [H|H%IH]; [|lia].
  destruct (is_data c); [|by apply elem_of_nil in H].
  apply list_elem_of_singleton in H. injection H as -> _. lia.
Qed.

Lemma select_data_insert l : forall k i el el',
  select_data k l = [(i, el)] -> is_data el' = true ->
  select_data k (<[i - k := el']> l) = [(i, el')].
Proof.
  induction l as [|c rest IH]; intros k i el el' Hsel Hel'; [done|].
  simpl in Hsel. destruct (is_data c) eqn:Hc; simpl in Hsel.
  - injection Hsel as -> -> Hrest. rewrite Nat.sub_diag. simpl. by rewrite Hel', Hrest.
  - assert (S k <= i) as Hle.
    { apply (select_data_ge _ rest _ el). rewrite Hsel. by left. }
    replace (i - k) with (S (i - S k)) by lia. simpl. rewrite Hc. simpl.
    by eapply IH.
Qed.

Lemma select_data_is_data k l i el : (i, el) ∈ select_data k l -> is_data el = true.
Proof.
  revert k. induction l as [|c rest IH]; intros k; simpl; [by intros ?%elem_of_nil|].
  rewrite elem_of_app. intros [H|H]; [|by eapply IH].
  destruct (is_data c) eqn:Hc; [|by apply elem_of_nil in H].
  apply list_elem_of_singleton in H. by injection H as _ ->.
Qed.

Lemma xpath_data_set_child root i el el' :
  xpath_data root = [(i, el)] -> is_data el' = true ->
  xpath_data (set_child i el' root) = [(i, el')].
Proof.
  destruct root as [tag attrib children| | |]; [|done..]. simpl.
  destruct (decide _); [|done]. intros H ?.
  rewrite <-(Nat.sub_0_r i) at 1. by eapply select_data_insert.
Qed.

Lemma xpath_data_is_data root i el : xpath_data root = [(i, el)] -> is_data el = true.
Proof.
  destruct root as [tag attrib children| | |]; [|done..]. simpl.
  destruct (decide _); [|done]. intros H.
  apply (select_data_is_data 0 children i). rewrite H. by left.
Qed.

Lemma is_data_qname el :
  is_data el = true -> exists ns attrib children, el = Elem (mkQName ns "data") attrib children.
Proof.
  destruct el as [[ns local] attrib children| | |]; [|done..]. simpl.
  intros ->%String.eqb_eq. eauto.
Qed.

Section SchemaReplyFacts.
Variable NETCONF_MONITORING_NS : string.
Variable replace_namespace : node -> option string -> string -> node.

Local Abbreviation fix_reply := (fix_get_schema_reply NETCONF_MONITORING_NS replace_namespace).

(** What the callers rely on: the monitoring namespace is not the base
    one, and [replace_namespace] gives an element in the old namespace the
    new one, keeping its local name. *)
Hypothesis monitoring_not_base : NETCONF_MONITORING_NS <> BASE_NS_1_0.
Hypothesis replace_namespace_tag_spec : forall tag attrib children new_ns,
  exists attrib' children',
    replace_namespace (Elem tag attrib children) (namespace tag) new_ns
    = Elem (mkQName (Some new_ns) (localname tag)) attrib' children'.

Lemma fix_reply_count root :
  length (xpath_data root) <> 1 -> fix_reply root = (root, []).
Proof.
  unfold fix_get_schema_reply. intros Hlen.
  destruct (xpath_data root) as [|[i el] [|]]; done.
Qed.

Lemma fix_reply_other root i el ns :
  xpath_data root = [(i, el)] -> namespace_of el = Some ns -> ns <> BASE_NS_1_0 ->
  fix_reply root = (root, []).
Proof.
  unfold fix_get_schema_reply. intros -> -> Hns.
  apply String.eqb_neq in Hns. by rewrite Hns.
Qed.

Lemma fix_reply_rewrite root i el :
  xpath_data root = [(i, el)] ->
  namespace_of el = Some BASE_NS_1_0 \/ namespace_of el = None ->
  exists el',
    (fix_reply root).1 = set_child i el' root
    /\ xpath_data (fix_reply root).1 = [(i, el')]
    /\ qname_of el' = Some (mkQName (Some NETCONF_MONITORING_NS) "data")
    /\ (fix_reply root).2
       = if namespace_of el is Some _ then [rfc_warning] else [].
Proof.
  intros Hx Hns. pose proof (xpath_data_is_data _ _ _ Hx) as Hd.
  destruct (is_data_qname _ Hd) as (ns & attrib & children & ->).
  unfold fix_get_schema_reply. rewrite Hx.
  destruct (replace_namespace_tag_spec (mkQName ns "data") attrib children
              NETCONF_MONITORING_NS) as (attrib' & children' & Hr).
  simpl in Hr. exists (Elem (mkQName (Some NETCONF_MONITORING_NS) "data") attrib' children').
  change (namespace_of (Elem (mkQName ns "data") attrib children)) with ns in *.
  destruct Hns as [->| ->].
  - rewrite String.eqb_refl. simpl. rewrite Hr. split; [done|]. split; [|done].
    by eapply xpath_data_set_child.
  - simpl. rewrite Hr. split; [done|]. split; [|done]. by eapply xpath_data_set_child.
Qed.

(** Whatever [replace_namespace] does, [fix_get_schema_reply] touches at
    most the one data element it found, in place, and logs at most one
    warning. *)
Theorem fix_get_schema_reply_frame root :
  ((fix_reply root).1 = root
   \/ exists i el,
        xpath_data root = [(i, el)]
        /\ (fix_reply root).1
           = set_child i (replace_namespace el (namespace_of el) NETCONF_MONITORING_NS) root)
  /\ length (fix_reply root).2 <= 1.
Proof.
  unfold fix_get_schema_reply.
  destruct (xpath_data root) as [|[i el] [|]]; simpl; [split; [by left|lia]| |split; [by left|lia]].
  destruct (namespace_of el) as [ns|] eqn:Hns; simpl.
  - destruct (String.eqb_spec ns BASE_NS_1_0) as [->|]; simpl; [|split; [by left|lia]].
    split; [|lia]. right. exists i, el. by rewrite Hns.
  - split; [|lia]. right. exists i, el. by rewrite Hns.
Qed.

(** C7. [fix_get_schema_reply] leaves the document as it is and logs
    nothing when the lookup of the data element finds no element or more
    than one, and when it finds one whose namespace is neither missing nor
    empty nor the NETCONF base namespace. *)
Theorem schema_reply_left_alone root :
  length (xpath_data root) <> 1
  \/ (exists i el ns, xpath_data root = [(i, el)] /\ namespace_of el = Some ns
                      /\ ns <> "" /\ ns <> BASE_NS_1_0) ->
  fix_reply root = (root, []).
Proof.
  intros [Hlen|(i & el & ns & Hx & Hns & _ & Hne)].
  - by apply fix_reply_count.
  - by eapply fix_reply_other.
Qed.

(** C8. When the lookup finds one data element and it is in the NETCONF
    base namespace, [fix_get_schema_reply] replaces it, where it stands, by
    what [replace_namespace] makes of that very element, which is in the
    monitoring namespace, and logs the one warning; when the element has no
    namespace, it does the same and logs nothing.  Either way the element
    put in is the one data element of the reply afterwards. *)
Theorem schema_reply_rewritten root i el :
  xpath_data root = [(i, el)] ->
  namespace_of el = Some BASE_NS_1_0 \/ namespace_of el = None ->
  let el' := replace_namespace el (namespace_of el) NETCONF_MONITORING_NS in
  (fix_reply root).1 = set_child i el' root
  /\ xpath_data (fix_reply root).1 = [(i, el')]
  /\ namespace_of el' = Some NETCONF_MONITORING_NS
  /\ (fix_reply root).2 = (if namespace_of el is Some _ then [rfc_warning] else []).
Proof.
  intros Hx Hns el'.
  destruct (fix_reply_rewrite root i el Hx Hns) as (el0 & Hroot & Hx' & Hq & Hlog).
  assert ((fix_reply root).1 = set_child i el' root) as Hroot'.
  { subst el'. unfold fix_get_schema_reply. rewrite Hx.
    destruct Hns as [-> | ->]; [by rewrite String.eqb_refl|done]. }
  assert (el0 = el') as ->.
  { pose proof (xpath_data_is_data _ _ _ Hx) as Hd.
    destruct (is_data_qname _ Hd) as (ns & attrib & children & ->).
    rewrite Hroot' in Hx'.
    destruct (replace_namespace_tag_spec (mkQName ns "data") attrib children
                NETCONF_MONITORING_NS) as (attrib' & children' & Hr).
    assert (xpath_data (set_child i el' root) = [(i, el')]) as Hx''.
    { eapply xpath_data_set_child; [exact Hx|]. subst el'. cbn in *. by rewrite Hr. }
    rewrite Hx'' in Hx'. by injection Hx' as ->. }
  split; [done|]. split; [done|]. split; [|done].
  unfold namespace_of. by rewrite Hq.
Qed.

(** C6. [fix_get_schema_reply] is idempotent: run on the document a first
    run left, it leaves that document as it is (and logs nothing). *)
Theorem fix_get_schema_reply_idempotent root :
  let once := (fix_get_schema_reply NETCONF_MONITORING_NS replace_namespace root).1 in
  (fix_get_schema_reply NETCONF_MONITORING_NS replace_namespace once).1 = once
  /\ (fix_get_schema_reply NETCONF_MONITORING_NS replace_namespace once).2 = [].
Proof.
  cbv zeta.
  assert (forall r, fix_reply r = (r, []) ->
    (fix_reply (fix_reply r).1).1 = (fix_reply r).1 /\ (fix_reply (fix_reply r).1).2 = [])
    as Hsame by (intros r H; rewrite H; simpl; by rewrite H).
  assert (forall i el, xpath_data root = [(i, el)] ->
    namespace_of el = Some BASE_NS_1_0 \/ namespace_of el = None ->
    fix_reply (fix_reply root).1 = ((fix_reply root).1, [])) as Hnew.
  { intros i el Hx Hns.
    destruct (fix_reply_rewrite root i el Hx Hns) as (el' & _ & Hx' & Hq & _).
    eapply fix_reply_other; [exact Hx'| |exact monitoring_not_base].
    unfold namespace_of. by rewrite Hq. }
  destruct (xpath_data root) as [|[i el] [|]] eqn:Hx;
    try (apply Hsame; apply fix_reply_count; by rewrite Hx).
  destruct (namespace_of el) as [ns|] eqn:Hns.
  - destruct (decide (ns = BASE_NS_1_0)) as [->|Hne].
    + rewrite (Hnew i el) by auto. done.
    + apply Hsame. by eapply fix_reply_other.
  - rewrite (Hnew i el) by auto. done.
Qed.
End SchemaReplyFacts.

(** ** Parser selection *)

Lemma get_listener_instance_Some cls session l :
  get_listener_instance cls session = Some l ->
  l ∈ listeners session /\ isinstance cls l = true.
Proof.
  unfold get_listener_instance. intros H%head_Some_elem_of.
  apply list_elem_of_filter in H as [? H]. by apply elem_of_elements in H.
Qed.

Lemma get_listener_instance_None cls session :
  get_listener_instance cls session = None ->
  forall l, l ∈ listeners session -> isinstance cls l <> true.
Proof.
  unfold get_listener_instance. intros H%head_None l Hl Hc.
  eapply filter_nil_not_elem_of; [exact H|exact Hc|]. by apply elem_of_elements.
Qed.

(** The listener the selection takes off the session, as a set: the one
    [get_listener_instance] returns, if it returns one. *)
Lemma removed_listener session :
  exists removed : gset listener,
    removed ⊆ sax_listeners session
    /\ size removed = Nat.min 1 (size (sax_listeners session))
    /\ listeners
         match get_listener_instance "SAXParserHandler" session with
         | Some l => remove_listener l session
         | None => session
         end
       = listeners session ∖ removed.
Proof.
  destruct (get_listener_instance "SAXParserHandler" session) as [l|] eqn:E.
  - apply get_listener_instance_Some in E as [Hin Hl]. exists {[l]}.
    assert (l ∈ sax_listeners session) as Hsax by (unfold sax_listeners; by apply elem_of_filter).
    split; [by apply singleton_subseteq_l|]. split; [|done].
    rewrite size_singleton.
    assert (size (sax_listeners session) <> 0); [|lia].
    apply size_non_empty_iff. intros Hempty.
    apply (not_elem_of_empty (C:=gset listener) l). by rewrite <-Hempty.
  - exists ∅. split; [apply empty_subseteq|].
    assert (sax_listeners session = ∅) as ->.
    { apply set_eq. intros l. unfold sax_listeners. rewrite elem_of_filter.
      split; [|by intros ?%not_elem_of_empty]. intros [Hl Hin].
      by destruct (get_listener_instance_None _ _ E l Hin). }
    rewrite !size_empty. split; [done|]. by rewrite difference_empty_L.
Qed.

Lemma new_listener_fresh session made :
  known made session -> mkListener "SAXParserHandler" made ∉ listeners session.
Proof. intros Hk Hin. apply Hk in Hin. simpl in Hin. lia. Qed.

(** The selection with the flag set, on the listeners: one handler at most
    goes, an object made in the call comes. *)
Lemma get_xml_parser_on device_params session made :
  truthy (default (ParamBool false) (device_params !! "use_filter")) = true ->
  exists removed : gset listener,
    removed ⊆ sax_listeners session
    /\ size removed = Nat.min 1 (size (sax_listeners session))
    /\ (get_xml_parser device_params session made).1 = JunosXMLParser
    /\ listeners (get_xml_parser device_params session made).2.1
       = {[mkListener "SAXParserHandler" made]} ∪ (listeners session ∖ removed)
    /\ (get_xml_parser device_params session made).2.2 = S made.
Proof.
  intros Hon. unfold get_xml_parser. rewrite Hon. cbn [negb new_listener fst snd].
  destruct (removed_listener session) as (removed & Hsub & Hsize & Hrest).
  exists removed. split; [done|]. split; [done|]. split; [done|]. split; [|done].
  unfold add_listener. cbn [listeners]. by rewrite Hrest.
Qed.

Lemma sax_listeners_on session made removed (after : gset listener) :
  known made session -> removed ⊆ sax_listeners session ->
  size removed = Nat.min 1 (size (sax_listeners session)) ->
  after = {[mkListener "SAXParserHandler" made]} ∪ (listeners session ∖ removed) ->
  size (sax_listeners (mkSession after)) = Nat.max 1 (size (sax_listeners session))
  /\ known (S made) (mkSession after).
Proof.
  intros Hk Hsub Hsize ->. split.
  - unfold sax_listeners. cbn [listeners].
    rewrite filter_union_L, filter_singleton_True_L; [|apply _|done|apply _].
    assert (filter (fun l => isinstance "SAXParserHandler" l = true) (listeners session ∖ removed)
            = sax_listeners session ∖ removed) as ->.
    { apply set_eq. intros x. unfold sax_listeners.
      rewrite elem_of_difference, !elem_of_filter, elem_of_difference. tauto. }
    rewrite size_union.
    + rewrite size_singleton, size_difference, Hsize by done.
      unfold sax_listeners. lia.
    + apply disjoint_singleton_l. intros [Hin _]%elem_of_difference.
      unfold sax_listeners in Hin. apply elem_of_filter in Hin as [_ Hin].
      by apply (new_listener_fresh session made).
  - intros l. cbn [listeners]. rewrite elem_of_union, elem_of_singleton, elem_of_difference.
    intros [->|[Hin _]]; [simpl; lia|]. apply Hk in Hin. lia.
Qed.

(** C9 (as amended). With [use_filter] absent or false, [get_xml_parser]
    returns the whole-document parser and leaves the session as it was.
    With [use_filter] true it returns the streaming parser; it takes one
    attached [SAXParserHandler] off the session if there is one and
    attaches a handler made in the call, which is none of the listeners
    the session had; every other listener stays.  So of n handlers attached
    before, max(1, n) are attached afterwards, exactly one for a session
    that had at most one, and selecting again changes nothing in that
    count. *)
Theorem get_xml_parser_selection device_params session made :
  let flag := device_params !! "use_filter" in
  let result := get_xml_parser device_params session made in
  (flag = None \/ flag = Some (ParamBool false) ->
     result = (DefaultXMLParser, (session, made)))
  /\ (flag = Some (ParamBool true) -> known made session ->
       result.1 = JunosXMLParser
       /\ (exists (removed : gset listener) (handler : listener),
             removed ⊆ sax_listeners session
             /\ size removed = Nat.min 1 (size (sax_listeners session))
             /\ isinstance "SAXParserHandler" handler = true
             /\ (handler ∉ listeners session)
             /\ listeners result.2.1 = {[handler]} ∪ (listeners session ∖ removed))
       /\ size (sax_listeners result.2.1) = Nat.max 1 (size (sax_listeners session))
       /\ (size (sax_listeners session) <= 1 -> size (sax_listeners result.2.1) = 1)
       /\ (forall l, isinstance "SAXParserHandler" l <> true ->
              l ∈ listeners result.2.1 <-> l ∈ listeners session)
       /\ size (sax_listeners (get_xml_parser device_params result.2.1 result.2.2).2.1)
          = size (sax_listeners result.2.1)).
Proof.
  intros flag result. subst flag result. split.
  - unfold get_xml_parser. by intros [-> | ->].
  - intros Hflag Hk.
    assert (truthy (default (ParamBool false) (device_params !! "use_filter")) = true) as Hon
      by (by rewrite Hflag).
    destruct (get_xml_parser_on device_params session made Hon)
      as (removed & Hsub & Hsize & Hp & Hl & Hm).
    destruct (get_xml_parser device_params session made) as [p [[after] made']].
    cbn [fst snd listeners] in *. subst made'.
    destruct (sax_listeners_on session made removed after Hk Hsub Hsize Hl) as [Hn Hk'].
    split; [done|]. split; [|split; [done|split; [lia|split]]].
    + exists removed, (mkListener "SAXParserHandler" made).
      split; [done|]. split; [done|]. split; [done|].
      split; [by apply new_listener_fresh|done].
    + intros l Hcls. rewrite Hl, elem_of_union, elem_of_singleton, elem_of_difference. split.
      * intros [->|[? _]]; [|done]. by destruct Hcls.
      * intros Hin. right. split; [done|]. intros Hs%Hsub.
        unfold sax_listeners in Hs. apply elem_of_filter in Hs as [Hs _]. by destruct Hcls.
    + destruct (get_xml_parser_on device_params (mkSession after) (S made) Hon)
        as (removed' & Hsub' & Hsize' & _ & Hl' & _).
      destruct (get_xml_parser device_params (mkSession after) (S made)) as [p' [[after'] made']].
      cbn [fst snd listeners] in *.
      destruct (sax_listeners_on (mkSession after) (S made) removed' after' Hk' Hsub' Hsize' Hl')
        as [Hn' _].
      rewrite Hn', Hn. lia.
Qed.

(** ** Texts cut by a literal in one way only *)

Lemma sapp_eq_app a : forall b c d, a +:+ b = c +:+ d ->
  exists k, (a = c +:+ k /\ d = k +:+ b) \/ (c = a +:+ k /\ b = k +:+ d).
Proof.
  induction a as [|x a IH]; intros b c d E.
  - exists c. right. done.
  - destruct c as [|y c].
    + exists (String x a). left. done.
    + rewrite !sapp_cons in E. injection E as -> E.
      destruct (IH _ _ _ E) as [k [[-> ->]|[-> ->]]]; exists k; [left|right]; done.
Qed.

Lemma sapp_inv_l a b c : a +:+ b = a +:+ c -> b = c.
Proof. induction a as [|x a IH]; [done|]. rewrite !sapp_cons. intros [=]. auto. Qed.

Lemma sapp_inv_r a b c : a +:+ c = b +:+ c -> a = b.
Proof.
  intros E. destruct (sapp_eq_app _ _ _ _ E) as [k [[-> Hk]|[-> Hk]]];
    apply (f_equal String.length) in Hk; rewrite slength_app in Hk;
    (destruct k; [by rewrite sapp_nil_r|simpl in Hk; lia]).
Qed.

Lemma contains_app_false c l a b :
  notin c l = true ->
  contains (String c l) a = false -> contains (String c l) (String c b) = false ->
  contains (String c l) (a +:+ String c b) = false.
Proof.
  intros Hl Ha Hb. apply not_contains. intros (u & w & E).
  apply sapp_eq_app in E as [k [[-> E]|[-> E]]].
  - symmetry in E. apply strip_prefix_spec in E. destruct k as [|x k].
    + apply strip_prefix_spec in E. apply not_contains in Hb. apply Hb.
      exists "", w. exact E.
    + rewrite sapp_cons in E. simpl in E. destruct (Ascii.eqb_spec c x) as [<-|]; [|done].
      apply fits_inside in E as [r ->]; [|done].
      apply not_contains in Ha. apply Ha. exists u, r. done.
  - apply not_contains in Hb. apply Hb. exists k, w. done.
Qed.

Lemma tag_pieces_length suffix pieces : length (tag_pieces suffix pieces) = length pieces.
Proof.
  induction pieces as [|x [|y rest] IH]; [done..|].
  change (tag_pieces suffix (x :: y :: rest)) with ((x +:+ suffix) :: tag_pieces suffix (y :: rest)).
  simpl in *. by rewrite IH.
Qed.

Lemma tag_pieces_inj suffix : forall P Q, tag_pieces suffix P = tag_pieces suffix Q -> P = Q.
Proof.
  induction P as [|x [|x' P] IH]; intros Q E;
    pose proof (f_equal length E) as Hlen; rewrite !tag_pieces_length in Hlen.
  - by destruct Q.
  - destruct Q as [|y [|??]]; done.
  - destruct Q as [|y [|y' Q]]; try done.
    change (tag_pieces suffix (x :: x' :: P)) with ((x +:+ suffix) :: tag_pieces suffix (x' :: P)) in E.
    change (tag_pieces suffix (y :: y' :: Q)) with ((y +:+ suffix) :: tag_pieces suffix (y' :: Q)) in E.
    injection E as Hx E. apply sapp_inv_r in Hx as ->. f_equal. by apply IH.
Qed.

Lemma join_tag_pieces suffix l pieces :
  join (suffix +:+ l) pieces = join l (tag_pieces suffix pieces).
Proof.
  induction pieces as [|x [|y rest] IH]; [done..|].
  change (tag_pieces suffix (x :: y :: rest)) with ((x +:+ suffix) :: tag_pieces suffix (y :: rest)).
  rewrite join_cons, IH.
  assert (exists z rest', tag_pieces suffix (y :: rest) = z :: rest') as (z & rest' & ->).
  { destruct rest; simpl; eauto. }
  by rewrite join_cons, !sapp_assoc.
Qed.

Lemma tag_pieces_free c l b pieces :
  notin c l = true -> contains (String c l) (String c b) = false ->
  Forall (fun x => contains (String c l) x = false) pieces ->
  Forall (fun x => contains (String c l) x = false) (tag_pieces (String c b) pieces).
Proof.
  intros Hl Hb. induction pieces as [|x [|y rest] IH]; intros H; [done..|].
  change (tag_pieces (String c b) (x :: y :: rest))
    with ((x +:+ String c b) :: tag_pieces (String c b) (y :: rest)).
  apply Forall_cons in H as [Hx H]. constructor; [|by apply IH].
  by apply contains_app_false.
Qed.

Lemma join_unique l : fresh_head l = true -> forall P Q,
  P <> [] -> Q <> [] ->
  Forall (fun x => contains l x = false) P -> Forall (fun x => contains l x = false) Q ->
  join l P = join l Q -> P = Q.
Proof.
  intros Hl.
  assert (forall x y t u, contains l x = false -> contains l y = false ->
            x +:+ l +:+ t = y +:+ l +:+ u -> x = y /\ t = u) as Hhead.
  { assert (forall x k t u, contains l (x +:+ k) = false ->
              l +:+ u = k +:+ l +:+ t -> k = "") as Hk.
    { intros x k t u Hx E. destruct k as [|c k]; [done|]. exfalso.
      pose proof (no_straddle l _ t Hl Hx x (String c k) eq_refl) as Hn.
      rewrite <-E, strip_prefix_app in Hn. by discriminate Hn. }
    intros x y t u Hx Hy E. apply sapp_eq_app in E as [k [[-> E]|[-> E]]].
    - pose proof (Hk y _ _ _ Hx E) as ->. rewrite sapp_nil_r. split; [done|].
      symmetry. by apply (sapp_inv_l l).
    - pose proof (Hk x _ _ _ Hy E) as ->. rewrite sapp_nil_r. split; [done|].
      by apply (sapp_inv_l l). }
  induction P as [|x [|x' P] IH]; intros Q HP HQ FP FQ E; [done| |].
  - destruct Q as [|y [|y' Q]]; [done|f_equal; exact E|]. exfalso.
    apply Forall_cons in FP as [Hx _]. apply not_contains in Hx. apply Hx.
    rewrite join_cons in E. change (join l [x]) with x in E. by exists y, (join l (y' :: Q)).
  - apply Forall_cons in FP as [Hx FP]. destruct Q as [|y [|y' Q]]; [done| |].
    + exfalso. apply Forall_cons in FQ as [Hy _]. apply not_contains in Hy. apply Hy.
      rewrite join_cons in E. change (join l [y]) with y in E. by exists x, (join l (x' :: P)).
    + apply Forall_cons in FQ as [Hy FQ]. rewrite !join_cons in E.
      apply Hhead in E as [-> E]; [|done..]. f_equal. by apply IH.
Qed.

Lemma findall_join l pieces :
  fresh_head l = true ->
  Forall (fun x => contains l x = false) pieces ->
  findall [Lit l] (join l pieces) = replicate (length pieces - 1) l.
Proof.
  intros Hl. unfold findall.
  assert (l <> "") as Hne by (by destruct l).
  assert (findall_from [Lit l] 0 "" = []) as Hnil by (by destruct l).
  induction 1 as [|x pieces Hx Hrest IH]; [done|].
  destruct pieces as [|y rest].
  - change (join ?s [x]) with x. rewrite <-(sapp_nil_r x) at 1.
    rewrite findall_from_free, Hnil; [done|].
    intros a1 a2 -> _. apply re_match_literal_None.
    rewrite sapp_nil_r. by eapply contains_false_suffix.
  - rewrite !join_cons, findall_from_free.
    + rewrite findall_from_hit, IH; [|done|apply re_match_literal]. simpl.
      by rewrite Nat.sub_0_r.
    + intros a1 a2 E ?. apply re_match_literal_None. by eapply no_straddle.
Qed.

Lemma slength_join_prefixed pre sep pieces :
  String.length (join (pre +:+ sep) pieces)
  = String.length (join sep pieces) + String.length pre * (length pieces - 1).
Proof.
  induction pieces as [|x [|y rest] IH]; [simpl; lia..|].
  rewrite !join_cons, !slength_app, IH. simpl. lia.
Qed.

Lemma search_envelope_plain raw :
  search envelope_re_plain raw = true <-> envelope_shape raw.
Proof.
  rewrite search_spec. unfold envelope_re_plain, envelope_shape. simpl. split.
  - intros (a & m & r & -> & m1 & -> & b & m2 & -> & m3 & -> & c & m4 & -> & m5 & -> & ->).
    exists a, b, c, r. by rewrite !sapp_assoc.
  - intros (a & b & c & d & ->).
    exists a, ("<rpc-reply>" +:+ b +:+ "</rpc-reply>" +:+ c +:+ "</hello"), d.
    split; [by rewrite !sapp_assoc|].
    eexists; split; [done|]. eexists _, _; split; [done|]. eexists; split; [done|].
    eexists _, _; split; [done|]. exists "". by rewrite sapp_nil_r.
Qed.

(** The question mark of the envelope pattern stands after [>] alone: it
    makes that one character optional, and the search says the same of
    every text with it and without the last two characters of the
    pattern.  A reply passes the test exactly when [</hello] follows an
    [<rpc-reply>...</rpc-reply>] in it. *)
Theorem envelope_question_mark_is_idle raw :
  search envelope_re raw = search envelope_re_plain raw.
Proof.
  apply eq_true_iff_eq. rewrite search_envelope, search_envelope_plain. done.
Qed.

(** ** The repair and the outcomes of [handle_raw_dispatch] *)

Section RepairFacts.
Variable XML : string -> option node.
Variable tostring : document -> string.
Variable to_ele : string -> option node.

Local Abbreviation handle := (handle_raw_dispatch XML tostring to_ele).

Lemma handle_PyStr raw s :
  handle raw = Some (PyStr s) ->
  contains "routing-engine" raw = true /\ s = sub ok_re ok_repl raw.
Proof.
  unfold handle_raw_dispatch. destruct (contains "routing-engine" raw).
  - by intros [= <-].
  - destruct (search envelope_re raw); [|done].
    destruct (findall rpc_error_re raw) as [|e errs]; [done|].
    destruct (mapM _ _); cbv [mbind option_bind]; [|done].
    by destruct (to_ele _).
Qed.

Lemma repaired_pieces raw :
  exists pieces,
    pieces <> [] /\ raw = join "<ok/>" pieces
    /\ Forall (fun x => contains "<ok/>" x = false) pieces
    /\ sub ok_re ok_repl raw = join "<ok/>" (tag_pieces ("</routing-engine>" +:+ LF) pieces)
    /\ Forall (fun x => contains "<ok/>" x = false)
         (tag_pieces ("</routing-engine>" +:+ LF) pieces).
Proof.
  destruct (join_covers "<ok/>" raw) as (pieces & Hne & -> & Hfree); [done|].
  exists pieces. split; [done|]. split; [done|]. split; [done|]. split.
  - unfold ok_re. rewrite sub_join by done. apply (join_tag_pieces ("</routing-engine>" +:+ LF)).
  - by apply (tag_pieces_free "<" "ok/>").
Qed.

(** The repair does not recognise its own work.  What it returns for a
    reply naming [routing-engine] names it again, has as many [<ok/>] as
    the reply, and is longer by the 18 characters of the closing tag and
    the line feed for each of them: run on its own result, the repair puts
    a second closing tag before every [<ok/>]. *)
Theorem repair_repeats raw :
  occurs "routing-engine" raw ->
  exists s,
    handle raw = Some (PyStr s)
    /\ occurs "routing-engine" s
    /\ String.length s = String.length raw + 18 * length (findall ok_re raw)
    /\ length (findall ok_re s) = length (findall ok_re raw).
Proof.
  intros Hre. exists (sub ok_re ok_repl raw). split; [by apply handle_routing_engine|].
  destruct (join_covers "<ok/>" raw) as (pieces & Hne & -> & Hfree); [done|].
  unfold ok_re. rewrite sub_join by done.
  change ok_repl with (("</routing-engine>" +:+ LF) +:+ "<ok/>"). split; [|split].
  - destruct pieces as [|x [|y rest]]; [done..|].
    exists (x +:+ "</"), (">" +:+ LF +:+ "<ok/>" +:+ join ok_repl (y :: rest)).
    change ok_repl with (("</routing-engine>" +:+ LF) +:+ "<ok/>").
    rewrite join_cons, !sapp_assoc. done.
  - rewrite findall_join, length_replicate by done.
    rewrite (slength_join_prefixed ("</routing-engine>" +:+ LF)). simpl. lia.
  - rewrite (join_tag_pieces ("</routing-engine>" +:+ LF)), !findall_join; [|done..|].
    + by rewrite !length_replicate, tag_pieces_length.
    + by apply (tag_pieces_free "<" "ok/>").
Qed.

(** The repair loses nothing of the reply: two replies that come back as
    the same text are the same reply. *)
Theorem repair_loses_nothing raw1 raw2 s :
  handle_raw_dispatch XML tostring to_ele raw1 = Some (PyStr s) ->
  handle_raw_dispatch XML tostring to_ele raw2 = Some (PyStr s) ->
  raw1 = raw2.
Proof.
  intros [_ H1]%handle_PyStr [_ H2]%handle_PyStr. subst s.
  destruct (repaired_pieces raw1) as (P & HP & -> & _ & E1 & FP).
  destruct (repaired_pieces raw2) as (Q & HQ & -> & _ & E2 & FQ).
  rewrite E1, E2 in H2. f_equal.
  apply (tag_pieces_inj ("</routing-engine>" +:+ LF)).
  apply (join_unique "<ok/>"); [done| | |done..].
  - intros E. apply (f_equal length) in E. rewrite tag_pieces_length in E. by destruct P.
  - intros E. apply (f_equal length) in E. rewrite tag_pieces_length in E. by destruct Q.
Qed.

(** Settles the four equivalences of the theorem below once the tests of
    the handler have been decided. *)
Ltac by_outcome :=
  split_and!;
  (split; [try (intros [? ?]); try (intros [?|[? ?]])|intros ?]);
  try done; try (intuition congruence);
  try (by eexists); try (by right; eexists); try (by left).

(** The four outcomes of [handle_raw_dispatch] and the replies each one
    belongs to.  It returns a text exactly for the replies naming
    [routing-engine]; of the others, it returns [False] for those not of
    the envelope shape, [None] for those of the envelope shape without an
    error fragment, and for those of the envelope shape with a fragment it
    returns an [RPCError] or raises ([None] of the option). *)
Theorem handle_raw_dispatch_outcomes raw :
  ((exists s, handle raw = Some (PyStr s)) <-> occurs "routing-engine" raw)
  /\ (handle raw = Some PyFalse <-> ~ occurs "routing-engine" raw /\ ~ envelope_shape raw)
  /\ (handle raw = Some PyNone
      <-> ~ occurs "routing-engine" raw /\ envelope_shape raw /\ ~ has_fragment raw)
  /\ (handle raw = None \/ (exists e, handle raw = Some (PyError e))
      <-> ~ occurs "routing-engine" raw /\ envelope_shape raw /\ has_fragment raw).
Proof.
  rewrite <-contains_spec, <-search_envelope, <-search_rpc_error.
  pose proof (findall_nil rpc_error_re raw) as Hnil.
  unfold handle_raw_dispatch.
  destruct (contains "routing-engine" raw); [|destruct (search envelope_re raw)].
  - by_outcome.
  - destruct (findall rpc_error_re raw) as [|e errs].
    + assert (search rpc_error_re raw = false) as -> by (by apply Hnil).
      by_outcome.
    + assert (search rpc_error_re raw = true) as ->.
      { destruct (search rpc_error_re raw); [done|].
        by destruct Hnil as [_ ?%(fun f => f eq_refl)]. }
      destruct (mapM _ _) as [err_list|]; cbv [mbind option_bind];
        [destruct (to_ele _) as [root|]|]; by_outcome.
  - by_outcome.
Qed.

End RepairFacts.

(** ** The stylesheet of [transform_reply] *)

Lemma set_attribute_names name v attrib :
  (set_attribute name v attrib).*1
  = if decide (name ∈ attrib.*1) then attrib.*1 else (attrib.*1 ++ [name])%list.
Proof.
  induction attrib as [|[n w] rest IH]; [done|]. cbn [set_attribute].
  destruct (decide (n = name)) as [->|Hne]; rewrite !fmap_cons; cbn [fst].
  - rewrite decide_True by left. done.
  - rewrite IH. destruct (decide (name ∈ rest.*1)) as [Hin|Hnin].
    + rewrite decide_True by (by right). done.
    + rewrite decide_False; [done|]. intros [?|?]%elem_of_cons; congruence.
Qed.

Lemma set_attribute_new name v attrib :
  name ∉ attrib.*1 -> set_attribute name v attrib = (attrib ++ [(name, v)])%list.
Proof.
  induction attrib as [|[n w] rest IH]; simpl; [done|]. intros Hnin.
  apply not_elem_of_cons in Hnin as [Hne Hnin].
  rewrite decide_False by done. by rewrite IH.
Qed.

Lemma set_attribute_NoDup name v attrib :
  NoDup attrib.*1 -> NoDup (set_attribute name v attrib).*1.
Proof.
  intros Hnd. rewrite set_attribute_names. destruct (decide _); [done|].
  apply NoDup_app. split; [done|]. split; [|apply NoDup_singleton].
  intros x Hx ->%list_elem_of_singleton. done.
Qed.

Lemma strip_attributes_id_from acc attrib :
  NoDup ((acc ++ attrib)%list).*1 -> Forall (fun a => namespace a.1 = None) attrib ->
  foldl (fun acc a => set_attribute (mkQName None (localname a.1)) a.2 acc) acc attrib
  = (acc ++ attrib)%list.
Proof.
  revert acc. induction attrib as [|[[ns ln] v] rest IH]; intros acc Hnd Hns; simpl.
  - by rewrite (right_id_L [] (++)).
  - apply Forall_cons in Hns as [Hq Hns]. simpl in Hq. subst ns.
    rewrite set_attribute_new.
    + rewrite IH; [by rewrite <-(assoc_L (++))| |done]. by rewrite <-(assoc_L (++)).
    + rewrite fmap_app in Hnd. apply NoDup_app in Hnd as (_ & Hdis & _).
      intros Hin. apply (Hdis _ Hin). simpl. by left.
Qed.

Lemma strip_attributes_spec attrib : forall acc,
  strip_attributes acc attrib
  = if existsb (fun a => String.eqb (localname a.1) "xmlns") attrib then None
    else Some (foldl (fun acc a => set_attribute (mkQName None (localname a.1)) a.2 acc)
                 acc attrib).
Proof.
  induction attrib as [|a rest IH]; intros acc; [done|].
  cbn [strip_attributes existsb foldl]. destruct (String.eqb _ _); [done|]. apply IH.
Qed.

Lemma set_attribute_Forall (Q : QName -> Prop) name v acc :
  Q name -> Forall (fun a => Q a.1) acc -> Forall (fun a => Q a.1) (set_attribute name v acc).
Proof.
  intros Hq. induction acc as [|[n w] acc IH]; intros H; cbn [set_attribute].
  - by repeat constructor.
  - apply Forall_cons in H as [Hn H]. destruct (decide _); constructor; auto.
Qed.

Lemma foldl_set_attribute_Forall (Q : QName -> Prop) attrib : forall acc,
  Forall (fun a => Q (mkQName None (localname a.1))) attrib ->
  Forall (fun a => Q a.1) acc ->
  Forall (fun a => Q a.1)
    (foldl (fun acc a => set_attribute (mkQName None (localname a.1)) a.2 acc) acc attrib).
Proof.
  induction attrib as [|a rest IH]; intros acc Hattr Hacc; [done|].
  apply Forall_cons in Hattr as [Ha Hattr]. cbn [foldl].
  apply IH; [done|]. by apply set_attribute_Forall.
Qed.

Lemma foldl_set_attribute_NoDup attrib : forall acc,
  NoDup acc.*1 ->
  NoDup (foldl (fun acc a => set_attribute (mkQName None (localname a.1)) a.2 acc) acc attrib).*1.
Proof.
  induction attrib as [|a rest IH]; intros acc Hnd; [done|].
  cbn [foldl]. by apply IH, set_attribute_NoDup.
Qed.

Lemma existsb_false {A} (f : A -> bool) l :
  existsb f l = false <-> Forall (fun x => f x = false) l.
Proof.
  induction l as [|x l IH]; cbn [existsb]; [by split|].
  rewrite orb_false_iff, IH, Forall_cons. done.
Qed.

Lemma strip_templates_Elem tag attrib children :
  strip_templates (Elem tag attrib children)
  = (attrib' ← strip_attributes [] attrib;
     kids ← mapM strip_templates children;
     Some [Elem (mkQName None (localname tag)) attrib' (merge_text (concat kids))]).
Proof. reflexivity. Qed.

(** The two ways an element comes out of the templates. *)
Lemma strip_templates_Elem_Some tag attrib children out :
  strip_templates (Elem tag attrib children) = Some out <->
  existsb (fun a => String.eqb (localname a.1) "xmlns") attrib = false
  /\ exists kids,
       mapM strip_templates children = Some kids
       /\ out = [Elem (mkQName None (localname tag))
                   (foldl (fun acc a => set_attribute (mkQName None (localname a.1)) a.2 acc)
                      [] attrib)
                   (merge_text (concat kids))].
Proof.
  rewrite strip_templates_Elem, strip_attributes_spec.
  destruct (existsb _ attrib); cbv [mbind option_bind].
  - split; [done|]. by intros [? _].
  - destruct (mapM strip_templates children) as [kids|].
    + split.
      * intros [= <-]. split; [done|]. by exists kids.
      * intros [_ (kids' & [= <-] & ->)]. done.
    + split; [done|]. by intros [_ (kids' & ? & _)].
Qed.

Lemma unqualified_Elem tag attrib children :
  unqualified (Elem tag attrib children) = true <->
  namespace tag = None
  /\ Forall (fun a => namespace a.1 = None) attrib
  /\ NoDup attrib.*1
  /\ Forall (fun c => unqualified c = true) children.
Proof.
  change (unqualified (Elem tag attrib children)) with
    (bool_decide (namespace tag = None)
     && forallb (fun a => bool_decide (namespace a.1 = None)) attrib
     && bool_decide (NoDup attrib.*1)
     && forallb unqualified children).
  rewrite !andb_true_iff, !bool_decide_eq_true, !forallb_spec.
  assert (Forall (fun a : QName * string => bool_decide (namespace a.1 = None) = true) attrib
          <-> Forall (fun a => namespace a.1 = None) attrib) as ->.
  { apply Forall_proper; [|done]. intros a. apply bool_decide_eq_true. }
  tauto.
Qed.

Lemma refused_Elem tag attrib children :
  refused (Elem tag attrib children) = false <->
  Forall (fun a => String.eqb (localname a.1) "xmlns" = false) attrib
  /\ Forall (fun c => refused c = false) children.
Proof.
  change (refused (Elem tag attrib children)) with
    (existsb (fun a => String.eqb (localname a.1) "xmlns") attrib || existsb refused children).
  by rewrite orb_false_iff, !existsb_false.
Qed.

Lemma parsed_Elem tag attrib children :
  parsed (Elem tag attrib children) = true <->
  merged children = true /\ Forall (fun c => parsed c = true) children.
Proof.
  change (parsed (Elem tag attrib children)) with (merged children && forallb parsed children).
  by rewrite andb_true_iff, forallb_spec.
Qed.

(** The children of an element, and a document, through the templates. *)
Lemma mapM_strip_templates (P : node -> Prop) children kids :
  Forall (fun c => forall out, strip_templates c = Some out -> Forall P out) children ->
  mapM strip_templates children = Some kids -> Forall P (concat kids).
Proof.
  intros IH Hk%mapM_Some. induction Hk as [|c k children kids Hc _ IHk]; [constructor|].
  apply Forall_cons in IH as [Hout IH]. cbn [concat]. apply Forall_app. auto.
Qed.

Lemma merge_text_Forall (P : node -> Prop) l :
  (forall s, P (Text s)) -> Forall P l -> Forall P (merge_text l).
Proof.
  intros HP. induction 1 as [|n l Hn _ IH]; [constructor|].
  destruct n as [tag attrib children|s|c|t d]; cbn [merge_text]; try by constructor.
  destruct (String.eqb s ""); [done|].
  destruct (merge_text l) as [|[| | |] rest]; try by constructor.
  apply Forall_cons in IH as [_ IH]. by constructor.
Qed.

(** What comes out of the templates has no namespace and no attribute name
    twice, holds no attribute the stylesheet refuses, and has its text in
    as few nodes as can be. *)
Lemma strip_templates_settled n out :
  strip_templates n = Some out ->
  Forall (fun m => unqualified m = true /\ refused m = false /\ parsed m = true) out.
Proof.
  revert out. induction n as [tag attrib children IH| | |] using node_nested_ind; intros out;
    [|by intros [= <-]; repeat constructor..].
  intros [Hx (kids & Hk & ->)]%strip_templates_Elem_Some.
  apply existsb_false in Hx.
  pose proof (mapM_strip_templates _ _ _ IH Hk) as Hkids.
  apply (merge_text_Forall _ _ (fun _ => conj eq_refl (conj eq_refl eq_refl))) in Hkids.
  assert (Forall (fun a : QName * string =>
            namespace a.1 = None /\ String.eqb (localname a.1) "xmlns" = false)
            (foldl (fun acc a => set_attribute (mkQName None (localname a.1)) a.2 acc) [] attrib))
    as Hattr.
  { apply (foldl_set_attribute_Forall
             (fun q => namespace q = None /\ String.eqb (localname q) "xmlns" = false));
      [|constructor].
    eapply Forall_impl; [exact Hx|]. intros a Ha. split; [done|exact Ha]. }
  constructor; [|constructor]. split; [|split].
  - apply unqualified_Elem. split; [done|]. split; [|split].
    + eapply Forall_impl; [exact Hattr|]. by intros a [? _].
    + by apply foldl_set_attribute_NoDup, NoDup_nil.
    + eapply Forall_impl; [exact Hkids|]. by intros m [? _].
  - apply refused_Elem. split.
    + eapply Forall_impl; [exact Hattr|]. by intros a [_ ?].
    + eapply Forall_impl; [exact Hkids|]. by intros m (_ & ? & _).
  - apply parsed_Elem. split; [apply merge_text_merged|].
    eapply Forall_impl; [exact Hkids|]. by intros m (_ & _ & ?).
Qed.

(** The templates fail on the trees with a refused attribute, and on no
    other. *)
Lemma strip_templates_None n : strip_templates n = None <-> refused n = true.
Proof.
  induction n as [tag attrib children IH| | |] using node_nested_ind; [|done..].
  change (refused (Elem tag attrib children)) with
    (existsb (fun a => String.eqb (localname a.1) "xmlns") attrib || existsb refused children).
  rewrite strip_templates_Elem, strip_attributes_spec.
  destruct (existsb _ attrib); cbv [mbind option_bind]; [done|]. cbn [orb].
  destruct (mapM strip_templates children) as [kids|] eqn:Hk.
  - split; [done|]. intros Hr. exfalso. apply mapM_Some in Hk.
    clear -IH Hk Hr. induction Hk as [|c k children kids Hc _ IHk]; [done|].
    apply Forall_cons in IH as [Hn IH]. cbn [existsb] in Hr.
    apply orb_true_iff in Hr as [Hr|Hr]; [|auto]. apply Hn in Hr. congruence.
  - split; [|done]. intros _. apply mapM_None in Hk.
    clear -IH Hk. induction Hk as [c children Hc|c children _ IHk];
      apply Forall_cons in IH as [Hn IH]; cbn [existsb]; apply orb_true_iff; [left|right; auto].
    by apply Hn.
Qed.

Lemma mapM_strip_templates_fixed children :
  Forall (fun c => strip_templates c = Some [c]) children ->
  exists kids, mapM strip_templates children = Some kids /\ concat kids = children.
Proof.
  intros H. exists (map (fun c => [c]) children). split.
  - apply mapM_Some. induction H; by constructor.
  - clear. induction children as [|c children IH]; [done|]. cbn [map concat]. by rewrite IH.
Qed.

Lemma strip_templates_fixed n :
  unqualified n = true -> refused n = false -> parsed n = true ->
  strip_templates n = Some [n].
Proof.
  induction n as [[ns ln] attrib children IH| | |] using node_nested_ind; [|done..].
  intros (Hns & Hattr & Hnd & Hkids)%unqualified_Elem [Hx Hr]%refused_Elem
    [Hm Hp]%parsed_Elem.
  simpl in Hns. subst ns. apply strip_templates_Elem_Some. split; [by apply existsb_false|].
  destruct (mapM_strip_templates_fixed children) as (kids & Hk & Hcat).
  { clear -IH Hkids Hr Hp. induction IH as [|c children Hc _ IHc]; [constructor|].
    apply Forall_cons in Hkids as [? ?]. apply Forall_cons in Hr as [? ?].
    apply Forall_cons in Hp as [? ?]. constructor; auto. }
  exists kids. split; [done|]. rewrite Hcat, merged_fixed by done. cbn [localname].
  by rewrite strip_attributes_id_from.
Qed.

Lemma merge_text_forget l :
  map forget_namespaces (merge_text l) = merge_text (map forget_namespaces l).
Proof.
  induction l as [|n l IH]; [done|].
  destruct n as [tag attrib children|s|c|t d]; cbn [merge_text map forget_namespaces];
    rewrite <-?IH; try done.
  destruct (String.eqb s ""); [done|]. by destruct (merge_text l) as [|[| | |] rest].
Qed.

Lemma merged_forget l : merged (map forget_namespaces l) = merged l.
Proof.
  induction l as [|n l IH]; [done|].
  destruct n as [tag attrib children|s|c|t d]; cbn [merged map forget_namespaces];
    rewrite ?IH; try done.
  by destruct l as [|[| | |] l].
Qed.

Lemma strip_templates_forget n out :
  parsed n = true -> strip_templates n = Some out ->
  map forget_namespaces out = [forget_namespaces n].
Proof.
  revert out. induction n as [tag attrib children IH| | |] using node_nested_ind; intros out;
    [|by intros _ [= <-]..].
  intros [Hm Hp]%parsed_Elem [_ (kids & Hk & ->)]%strip_templates_Elem_Some.
  cbn [map forget_namespaces localname]. do 2 f_equal.
  rewrite merge_text_forget.
  assert (map forget_namespaces (concat kids) = map forget_namespaces children) as ->.
  { apply mapM_Some in Hk. clear -IH Hp Hk.
    induction Hk as [|c k children kids Hc _ IHk]; [done|].
    apply Forall_cons in IH as [Hn IH]. apply Forall_cons in Hp as [? ?].
    cbn [concat map]. rewrite map_app, (Hn k), IHk by done. done. }
  apply merged_fixed. by rewrite merged_forget.
Qed.

Lemma transform_reply_Some doc out :
  transform_reply doc = Some out <->
  exists kids, mapM strip_templates doc = Some kids /\ out = merge_text (concat kids).
Proof.
  unfold transform_reply. destruct (mapM strip_templates doc) as [kids|];
    cbv [mbind option_bind].
  - split; [intros [= <-]; by exists kids|]. by intros (? & [= <-] & ->).
  - split; [done|]. by intros (? & ? & _).
Qed.

Lemma transform_reply_settled doc out :
  transform_reply doc = Some out ->
  Forall (fun m => unqualified m = true /\ refused m = false /\ parsed m = true) out
  /\ merged out = true.
Proof.
  intros (kids & Hk & ->)%transform_reply_Some. split; [|apply merge_text_merged].
  apply merge_text_Forall; [done|].
  eapply mapM_strip_templates; [|exact Hk].
  apply Forall_true. intros n. apply strip_templates_settled.
Qed.

Lemma transform_reply_fixed doc :
  Forall (fun m => unqualified m = true /\ refused m = false /\ parsed m = true) doc ->
  merged doc = true -> transform_reply doc = Some doc.
Proof.
  intros Hdoc Hm. apply transform_reply_Some.
  destruct (mapM_strip_templates_fixed doc) as (kids & Hk & Hcat).
  { eapply Forall_impl; [exact Hdoc|]. intros n (? & ? & ?). by apply strip_templates_fixed. }
  exists kids. split; [done|]. by rewrite Hcat, merged_fixed.
Qed.

(** The stylesheet of [transform_reply] and namespaces.  It cannot be
    applied to a document in which some attribute has the local name
    [xmlns], and lxml raises; to every other document it can, and it leaves
    no namespace behind: no element and no attribute of the result is in a
    namespace, and no element of the result has two attributes of one
    name. *)
Theorem transform_reply_strips_every_namespace doc :
  match transform_reply doc with
  | Some out =>
      Forall (fun n => refused n = false) doc /\ Forall (fun n => unqualified n = true) out
  | None => Exists (fun n => refused n = true) doc
  end.
Proof.
  destruct (transform_reply doc) as [out|] eqn:E.
  - split.
    + apply transform_reply_Some in E as (kids & Hk%mapM_Some & _).
      clear -Hk. induction Hk as [|n k doc kids Hn _ IH]; constructor; [|done].
      destruct (refused n) eqn:Hr; [|done]. apply strip_templates_None in Hr. congruence.
    + apply transform_reply_settled in E as [E _].
      eapply Forall_impl; [exact E|]. by intros m [? _].
  - unfold transform_reply in E.
    destruct (mapM strip_templates doc) as [kids|] eqn:Hk; [done|].
    apply mapM_None in Hk. eapply Exists_impl; [exact Hk|].
    intros n. apply strip_templates_None.
Qed.

(** Running the stylesheet on its own result gives that result again. *)
Theorem transform_reply_idempotent doc out :
  transform_reply doc = Some out -> transform_reply out = Some out.
Proof. intros [Hout Hm]%transform_reply_settled. by apply transform_reply_fixed. Qed.

(** The stylesheet touches names only.  Of a document as a parser builds
    it, the elements of the result nest as those of the document, under the
    same local names and in the same order, and every text, comment and
    processing instruction is where it was. *)
Theorem transform_reply_keeps_the_tree doc out :
  Forall (fun n => parsed n = true) doc -> merged doc = true ->
  transform_reply doc = Some out ->
  map forget_namespaces out = map forget_namespaces doc.
Proof.
  intros Hp Hm (kids & Hk & ->)%transform_reply_Some.
  rewrite merge_text_forget.
  assert (map forget_namespaces (concat kids) = map forget_namespaces doc) as ->.
  { apply mapM_Some in Hk. clear -Hp Hk.
    induction Hk as [|c k children kids Hc _ IHk]; [done|].
    apply Forall_cons in Hp as [? ?].
    cbn [concat map]. rewrite map_app, (strip_templates_forget c k), IHk by done. done. }
  apply merged_fixed. by rewrite merged_forget.
Qed.

Lemma set_attribute_unqualified ln v acc :
  Forall (fun a => namespace a.1 = None) acc ->
  Forall (fun a => namespace a.1 = None) (set_attribute (mkQName None ln) v acc).
Proof.
  induction acc as [|[n w] acc IH]; intros H; simpl.
  - by repeat constructor.
  - apply Forall_cons in H as [Hn H]. destruct (decide _); constructor; auto.
Qed.

Lemma by_localname_set_attribute ln v acc :
  Forall (fun a => namespace a.1 = None) acc ->
  by_localname (set_attribute (mkQName None ln) v acc) = <[ln := v]> (by_localname acc).
Proof.
  unfold by_localname. induction acc as [|[[ns n] w] acc IH]; intros H; [done|].
  apply Forall_cons in H as [Hn H]. simpl in Hn. subst ns. cbn [set_attribute].
  destruct (decide (mkQName None n = mkQName None ln)) as [[= ->]|Hne].
  - rewrite !fmap_cons. cbn. by rewrite insert_insert_eq.
  - rewrite !fmap_cons. cbn. rewrite IH by done.
    apply insert_insert_ne. congruence.
Qed.

Lemma by_localname_strip_from attrib : forall acc,
  Forall (fun a => namespace a.1 = None) acc ->
  by_localname (foldl (fun acc a => set_attribute (mkQName None (localname a.1)) a.2 acc) acc attrib)
  = foldl (fun m a => <[localname a.1 := a.2]> m) (by_localname acc) attrib.
Proof.
  induction attrib as [|a attrib IH]; intros acc H; [done|]. simpl.
  rewrite IH by (by apply set_attribute_unqualified).
  by rewrite by_localname_set_attribute.
Qed.

(** An element comes out under its local name with its children run
    through the stylesheet, and its attributes are those of the source
    entered one by one under their local names: of two attributes that
    differ in the namespace only, the value of the later one is kept. *)
Theorem transform_reply_attributes tag attrib children out :
  transform_reply [Elem tag attrib children] = Some out ->
  exists attrib' kids,
    out = [Elem (mkQName None (localname tag)) attrib' kids]
    /\ transform_reply children = Some kids
    /\ by_localname attrib' = foldl (fun m a => <[localname a.1 := a.2]> m) ∅ attrib.
Proof.
  intros (kids0 & Hk%mapM_Some & ->)%transform_reply_Some.
  apply Forall2_cons_inv_l in Hk as (k & kids1 & Hn & ->%Forall2_nil_inv_l & ->).
  apply strip_templates_Elem_Some in Hn as [_ (kids & Hkids & ->)].
  eexists _, _. split; [reflexivity|]. split.
  - apply transform_reply_Some. by exists kids.
  - by rewrite by_localname_strip_from.
Qed.

(** ** The [add_ns] stylesheet run twice *)

Lemma apply_templates_fixed n : repaired n = true -> apply_templates n = [n].
Proof.
  induction n as [[ns ln] attrib children IH| | |] using node_nested_ind; [|done..].
  cbn [repaired namespace]. rewrite !andb_true_iff, !bool_decide_eq_true, forallb_spec.
  intros [[[-> ->] Hm] Hkids]. cbn [apply_templates localname map]. do 2 f_equal.
  change ([] ++ ?l)%list with l.
  assert (concat (map apply_templates children) = children) as ->; [|by apply merged_fixed].
  clear -IH Hkids. induction children as [|c children IHc]; [done|].
  apply Forall_cons in IH as [Hc IH]. apply Forall_cons in Hkids as [Hu Hkids].
  cbn [map concat]. rewrite Hc by done. simpl. f_equal. by apply IHc.
Qed.

Lemma add_ns_fixed doc :
  Forall (fun n => repaired n = true) doc -> merged doc = true -> add_ns doc = doc.
Proof.
  unfold add_ns. intros Hdoc Hm.
  assert (concat (map apply_templates doc) = doc) as ->; [|by apply merged_fixed].
  clear Hm. induction Hdoc as [|n doc Hn _ IH]; [done|].
  cbn [map concat]. by rewrite apply_templates_fixed, IH.
Qed.

Lemma element_tree_apply_templates n :
  concat (map element_tree (map forget_namespaces (apply_templates n)))
  = element_tree (forget_namespaces n).
Proof.
  induction n as [tag attrib children IH| | |] using node_nested_ind; [|done..].
  cbn [apply_templates forget_namespaces map element_tree concat localname].
  rewrite (right_id_L [] (++)). do 2 f_equal.
  rewrite !map_map, (merge_text_concat_map (fun n => element_tree (forget_namespaces n)))
    by done.
  rewrite map_app, concat_app.
  assert (concat (map (fun n => element_tree (forget_namespaces n))
                    (map (fun a => Text a.2) attrib)) = []) as ->.
  { clear. by induction attrib. }
  change ([] ++ ?l)%list with l.
  clear -IH. induction IH as [|c children Hc _ IHc]; [done|].
  cbn [map concat]. rewrite map_app, concat_app, <-IHc. f_equal.
  by rewrite <-Hc, map_map.
Qed.

(** Running the [add_ns] stylesheet on its own result changes nothing: a
    fragment already repaired is not repaired further. *)
Theorem add_ns_idempotent doc : add_ns (add_ns doc) = add_ns doc.
Proof.
  apply add_ns_fixed; [apply add_ns_repaired|]. unfold add_ns. apply merge_text_merged.
Qed.

(** The [add_ns] stylesheet keeps the elements: those of its result nest
    as those of the document, under the same local names and in the same
    order. *)
Theorem add_ns_keeps_the_elements doc :
  same_elements (map forget_namespaces (add_ns doc)) (map forget_namespaces doc).
Proof.
  unfold same_elements, add_ns.
  rewrite !map_map, (merge_text_concat_map (fun n => element_tree (forget_namespaces n)))
    by done.
  induction doc as [|n doc IH]; [done|].
  cbn [map concat]. rewrite map_app, concat_app, IH. f_equal.
  by rewrite <-element_tree_apply_templates, map_map.
Qed.

(** ** The handler, the fix-up and the selection at work

    The theorems above applied to the sample inputs, with [MiniXML] for
    lxml, [replace_namespace_tag] for [replace_namespace] and
    [monitoring_ns] for the monitoring namespace. *)

Local Abbreviation handle := (handle_raw_dispatch MiniXML.XML MiniXML.tostring MiniXML.to_ele).

Example findall_takes_the_first_closing_tag :
  findall rpc_error_re "<rpc-error>1</rpc-error>-<rpc-error><rpc-error>2</rpc-error></rpc-error>"
  = ["<rpc-error>1</rpc-error>"; "<rpc-error><rpc-error>2</rpc-error>"].
Proof. reflexivity. Qed.

Example search_wants_no_closing_bracket :
  search envelope_re "<rpc-reply>ok</rpc-reply> </hello" = true
  /\ search envelope_re "</hello><rpc-reply>ok</rpc-reply>" = false.
Proof. split; reflexivity. Qed.

Example XML_resolves_namespaces :
  MiniXML.XML "<a xmlns='urn:x' xmlns:p='urn:p'><p:b k='v'/>t &amp; u</a>"
  = Some (Elem (mkQName (Some "urn:x") "a") []
            [Elem (mkQName (Some "urn:p") "b") [(mkQName None "k", "v")] [];
             Text "t & u"]).
Proof. vm_compute. reflexivity. Qed.

Example XML_rejects_mismatched_tags :
  MiniXML.XML "<rpc-error><a></rpc-error>" = None
  /\ MiniXML.XML "<a></a><b></b>" = None
  /\ MiniXML.XML "<a>" = None.
Proof. repeat split; vm_compute; reflexivity. Qed.

Example add_ns_turns_attributes_into_text :
  add_ns [Elem (mkQName None "rpc-error") [(mkQName None "k", "v")]
            [Comment "c"; Elem (mkQName (Some "urn:x") "a") [] [Text "t"]]]
  = [Elem (mkQName (Some BASE_NS_1_0) "rpc-error") []
       [Text "v"; Elem (mkQName (Some BASE_NS_1_0) "a") [] [Text "t"]]]
  /\ add_ns [Elem (mkQName None "a") [(mkQName None "k", "v"); (mkQName None "l", "")]
              [Text "t"; Comment "c"; Text "u"]]
     = [Elem (mkQName (Some BASE_NS_1_0) "a") [] [Text "vtu"]].
Proof. split; reflexivity. Qed.

Example tostring_then_XML :
  MiniXML.XML
    (MiniXML.tostring
       [Elem (mkQName (Some BASE_NS_1_0) "rpc-error") []
          [Text "v"; Elem (mkQName (Some BASE_NS_1_0) "a") [] [Text "t < u"]]])
  = Some (Elem (mkQName (Some BASE_NS_1_0) "rpc-error") []
            [Text "v"; Elem (mkQName (Some BASE_NS_1_0) "a") [] [Text "t < u"]]).
Proof. vm_compute. reflexivity. Qed.

(** C4 on a well-formed reply that names no routing engine. *)
Lemma no_marker_not_applicable_witness :
  handle "<rpc-reply><ok/></rpc-reply>" = Some PyFalse
  /\ (forall s, handle "<rpc-reply><ok/></rpc-reply>" <> Some (PyStr s))
  /\ (forall e, handle "<rpc-reply><ok/></rpc-reply>" <> Some (PyError e)).
Proof.
  apply no_marker_not_applicable.
  - apply not_contains. vm_compute. reflexivity.
  - apply not_envelope. vm_compute. reflexivity.
Defined.

(** C10 on an envelope and a greeting end without any error. *)
Lemma envelope_without_fragment_returns_None_witness :
  handle "<rpc-reply></rpc-reply></hello>" = Some PyNone
  /\ handle "" = Some PyFalse
  /\ PyNone <> PyFalse.
Proof.
  apply envelope_without_fragment_returns_None.
  - apply not_contains. vm_compute. reflexivity.
  - apply search_envelope. vm_compute. reflexivity.
  - apply not_fragment. vm_compute. reflexivity.
Defined.

(** C3 on a reply with one unclosed routing engine. *)
Lemma routing_engine_repair_witness :
  (exists pieces,
     "<rpc-reply><routing-engine><name>re0</name><ok/></rpc-reply>" = join "<ok/>" pieces
     /\ Forall (fun piece => ~ occurs "<ok/>" piece) pieces
     /\ handle "<rpc-reply><routing-engine><name>re0</name><ok/></rpc-reply>"
        = Some (PyStr (join ("</routing-engine>" +:+ LF +:+ "<ok/>") pieces)))
  /\ handle "<routing-engine><ok/>"
     = Some (PyStr ("<routing-engine></routing-engine>" +:+ LF +:+ "<ok/>")).
Proof.
  apply routing_engine_repair. apply contains_spec. vm_compute. reflexivity.
Defined.

(** C1 on a reply with two error fragments. *)
Lemma rpc_errors_extracted_witness :
  exists details root,
    handle (reply_of sample_parts "")
    = Some (PyError (mkRPCError root (Some (map (fun t => mkRPCError t None) details))))
    /\ length details = 2
    /\ Forall (fun t => all_elements_in BASE_NS_1_0 t = true) details.
Proof.
  eexists _, _.
  apply (rpc_errors_extracted MiniXML.XML MiniXML.tostring MiniXML.to_ele sample_parts "").
  - discriminate.
  - repeat constructor; apply not_contains; vm_compute; reflexivity.
  - apply not_fragment. vm_compute. reflexivity.
  - apply not_contains. vm_compute. reflexivity.
  - apply search_envelope. vm_compute. reflexivity.
  - repeat (apply Forall2_cons_2 || apply Forall2_nil_2);
      (eexists; split; [parsed|split; [parsed|vm_compute; reflexivity]]).
  - parsed.
Defined.

(** C2 on the same reply. *)
Lemma extraction_returns_error_only_witness :
  let raw := reply_of sample_parts "" in
  exists err_list root,
    handle raw = Some (PyError (mkRPCError root (Some err_list)))
    /\ (forall s, handle raw <> Some (PyStr s))
    /\ (forall raw', ~ occurs "routing-engine" raw' -> envelope_shape raw' ->
          findall rpc_error_re raw' = findall rpc_error_re raw -> handle raw' = handle raw)
    /\ (forall raw' s e, handle raw' = Some (PyStr s) -> handle raw' <> Some (PyError e)).
Proof.
  eexists _, _.
  apply (extraction_returns_error_only MiniXML.XML MiniXML.tostring MiniXML.to_ele).
  - apply not_contains. vm_compute. reflexivity.
  - apply search_envelope. vm_compute. reflexivity.
  - reflexivity.
  - vm_compute. discriminate.
  - parsed.
  - parsed.
Defined.

(** C1 as the claim states it fails.  The first reply has the envelope
    shape and one fragment, and the handler returns the text, not an error
    object, because its error message names a routing engine.  The second
    has the envelope shape and one fragment, which is not well-formed: the
    parser raises and the handler returns nothing. *)
Lemma rpc_errors_not_extracted_under_routing_engine :
  (envelope_shape reply_naming_routing_engine
   /\ findall rpc_error_re reply_naming_routing_engine
      = [rpc_error_fragment "<error-message>routing-engine re1 not ready</error-message>"]
   /\ handle reply_naming_routing_engine = Some (PyStr reply_naming_routing_engine))
  /\ (envelope_shape "<rpc-reply></rpc-reply></hello><rpc-error><a></rpc-error>"
      /\ findall rpc_error_re "<rpc-reply></rpc-reply></hello><rpc-error><a></rpc-error>"
         = [rpc_error_fragment "<a>"]
      /\ handle "<rpc-reply></rpc-reply></hello><rpc-error><a></rpc-error>" = None).
Proof.
  split; (split; [apply search_envelope|split]; vm_compute; reflexivity).
Qed.

(** C2 as the claim states it fails: two different replies give the same
    return value, an error object; the raw text is not returned with it. *)
Lemma error_object_carries_no_raw_text :
  let raw1 := "<rpc-reply></rpc-reply></hello><rpc-error><a/></rpc-error>" in
  let raw2 := "<rpc-reply>x</rpc-reply></hello><rpc-error><a/></rpc-error>" in
  raw1 <> raw2
  /\ handle raw1 = handle raw2
  /\ exists e, handle raw1 = Some (PyError e).
Proof.
  split; [discriminate|]. split; [vm_compute; reflexivity|].
  eexists. vm_compute. reflexivity.
Qed.

(** C3 as the claim states it fails: with two [<ok/>] in the reply the
    closing tag is put before both, not before the last one alone. *)
Lemma closing_tag_before_every_ok :
  handle two_routing_engines
  = Some (PyStr ("<routing-engine><name>re0</name></routing-engine>" +:+ LF
                 +:+ "<ok/><routing-engine><name>re1</name></routing-engine>" +:+ LF
                 +:+ "<ok/>"))
  /\ handle two_routing_engines
     <> Some (PyStr ("<routing-engine><name>re0</name><ok/><routing-engine><name>re1</name>"
                     +:+ "</routing-engine>" +:+ LF +:+ "<ok/>")).
Proof. split; [vm_compute; reflexivity|vm_compute; discriminate]. Qed.


Lemma replace_namespace_tag_ok tag attrib children new_ns :
  exists attrib' children',
    replace_namespace_tag (Elem tag attrib children) (namespace tag) new_ns
    = Elem (mkQName (Some new_ns) (localname tag)) attrib' children'.
Proof. exists attrib, children. unfold replace_namespace_tag. by rewrite decide_True. Qed.

Lemma monitoring_ns_not_base : monitoring_ns <> BASE_NS_1_0.
Proof. discriminate. Qed.

Local Abbreviation fix_reply := (fix_get_schema_reply monitoring_ns replace_namespace_tag).

(** C6 on a reply whose data element is in the base namespace. *)
Lemma fix_get_schema_reply_idempotent_witness :
  (fix_reply (fix_reply (schema_reply (Some BASE_NS_1_0))).1).1
  = (fix_reply (schema_reply (Some BASE_NS_1_0))).1
  /\ (fix_reply (fix_reply (schema_reply (Some BASE_NS_1_0))).1).2 = [].
Proof.
  apply (fix_get_schema_reply_idempotent monitoring_ns replace_namespace_tag).
  - exact monitoring_ns_not_base.
  - exact replace_namespace_tag_ok.
Defined.

(** C7 on a reply with two data elements, and on one whose data element is
    in the monitoring namespace already. *)
Lemma schema_reply_left_alone_witness :
  fix_reply schema_reply_two_data = (schema_reply_two_data, [])
  /\ fix_reply (schema_reply (Some monitoring_ns)) = (schema_reply (Some monitoring_ns), []).
Proof.
  split; apply schema_reply_left_alone.
  - left. vm_compute. lia.
  - right. eexists 0, _, monitoring_ns. vm_compute. repeat split; discriminate.
Defined.

(** C8 on a data element in the base namespace, and on one without
    namespace: the element comes back in the monitoring namespace with the
    schema text still in it, after one warning and after none. *)
Lemma schema_reply_rewritten_witness :
  (fix_reply (schema_reply (Some BASE_NS_1_0))
   = (schema_reply (Some monitoring_ns), [rfc_warning]))
  /\ (fix_reply (schema_reply None) = (schema_reply (Some monitoring_ns), [])).
Proof.
  split.
  - destruct (schema_reply_rewritten monitoring_ns replace_namespace_tag
                replace_namespace_tag_ok (schema_reply (Some BASE_NS_1_0)) 0
                (Elem (mkQName (Some BASE_NS_1_0) "data") [] [Text "module example { }"]))
      as (Hroot & _ & _ & Hlog).
    + vm_compute. reflexivity.
    + left. reflexivity.
    + apply injective_projections; [rewrite Hroot|rewrite Hlog]; reflexivity.
  - destruct (schema_reply_rewritten monitoring_ns replace_namespace_tag
                replace_namespace_tag_ok (schema_reply None) 0
                (Elem (mkQName None "data") [] [Text "module example { }"]))
      as (Hroot & _ & _ & Hlog).
    + vm_compute. reflexivity.
    + right. reflexivity.
    + apply injective_projections; [rewrite Hroot|rewrite Hlog]; reflexivity.
Defined.

(** C9 on a session with one handler attached, after two objects were
    made: without the flag; with it, where the handler attached goes and
    the third object of the run comes; and selecting twice. *)
Lemma get_xml_parser_selection_witness :
  get_xml_parser {[ "name" := ParamStr "junos" ]} session_with_handler 2
  = (DefaultXMLParser, (session_with_handler, 2))
  /\ (get_xml_parser filtering_params session_with_handler 2).1 = JunosXMLParser
  /\ listeners (get_xml_parser filtering_params session_with_handler 2).2.1
     = {[ mkListener "SAXParserHandler" 2; mkListener "RPCReplyListener" 1 ]}
  /\ size (sax_listeners (get_xml_parser filtering_params session_with_handler 2).2.1) = 1
  /\ size (sax_listeners
       (get_xml_parser filtering_params
          (get_xml_parser filtering_params session_with_handler 2).2.1
          (get_xml_parser filtering_params session_with_handler 2).2.2).2.1) = 1.
Proof.
  pose proof (get_xml_parser_selection {[ "name" := ParamStr "junos" ]} session_with_handler 2)
    as [Hoff _].
  pose proof (get_xml_parser_selection filtering_params session_with_handler 2) as [_ Hon].
  split; [apply Hoff; left; vm_compute; reflexivity|].
  destruct Hon as (Hp & _ & _ & Hone & _ & Hagain); [vm_compute; reflexivity| |].
  { intros l. unfold session_with_handler. cbn [listeners].
    rewrite elem_of_union, !elem_of_singleton. intros [-> | ->]; simpl; lia. }
  assert (size (sax_listeners session_with_handler) <= 1) as Hle by (vm_compute; lia).
  split; [exact Hp|]. split; [vm_compute; reflexivity|].
  split; [exact (Hone Hle)|]. rewrite Hagain. exact (Hone Hle).
Defined.

(** C9 as the claim states it fails: of two handlers attached the
    selection takes one off and attaches one, and two are attached
    afterwards.  Such a session comes about when a handler is attached
    through [add_listener] besides the one the selection attaches. *)
Lemma two_handlers_stay_two :
  (get_xml_parser filtering_params session_with_two_handlers 2).1 = JunosXMLParser
  /\ size (sax_listeners session_with_two_handlers) = 2
  /\ size (sax_listeners (get_xml_parser filtering_params session_with_two_handlers 2).2.1) = 2.
Proof. split; [|split]; vm_compute; reflexivity. Qed.

(** The repair run on the reply of two routing engines. *)
Lemma repair_repeats_witness :
  occurs "routing-engine" two_routing_engines
  /\ exists s,
       handle two_routing_engines = Some (PyStr s)
       /\ occurs "routing-engine" s
       /\ String.length s
          = String.length two_routing_engines + 18 * length (findall ok_re two_routing_engines)
       /\ length (findall ok_re s) = length (findall ok_re two_routing_engines).
Proof.
  assert (occurs "routing-engine" two_routing_engines) as Hre.
  { apply contains_spec. vm_compute. reflexivity. }
  split; [exact Hre|].
  exact (repair_repeats MiniXML.XML MiniXML.tostring MiniXML.to_ele two_routing_engines Hre).
Defined.

(** One repaired text, one reply. *)
Lemma repair_loses_nothing_witness :
  handle two_routing_engines
  = Some (PyStr ("<routing-engine><name>re0</name></routing-engine>" +:+ LF
                 +:+ "<ok/><routing-engine><name>re1</name></routing-engine>" +:+ LF +:+ "<ok/>"))
  /\ two_routing_engines = two_routing_engines.
Proof.
  split; [reflexivity|].
  apply (repair_loses_nothing MiniXML.XML MiniXML.tostring MiniXML.to_ele
           two_routing_engines two_routing_engines
           (sub ok_re ok_repl two_routing_engines)); reflexivity.
Defined.

(** The stylesheet of [transform_reply] run on its own result for the
    sample reply. *)
Lemma transform_reply_idempotent_witness :
  transform_reply qualified_reply = Some stripped_reply
  /\ transform_reply stripped_reply = Some stripped_reply.
Proof.
  assert (transform_reply qualified_reply = Some stripped_reply) as H
    by (vm_compute; reflexivity).
  split; [exact H|]. exact (transform_reply_idempotent qualified_reply stripped_reply H).
Defined.

(** The sample reply and its result, names apart. *)
Lemma transform_reply_keeps_the_tree_witness :
  transform_reply qualified_reply = Some stripped_reply
  /\ map forget_namespaces stripped_reply = map forget_namespaces qualified_reply.
Proof.
  assert (transform_reply qualified_reply = Some stripped_reply) as H
    by (vm_compute; reflexivity).
  split; [exact H|].
  apply (transform_reply_keeps_the_tree qualified_reply stripped_reply); [|reflexivity|exact H].
  repeat constructor.
Defined.

(** The attributes of the root of the sample reply: of the two named [id]
    the later value is kept. *)
Lemma transform_reply_attributes_witness :
  exists attrib' kids,
    stripped_reply = [Comment "junos"; Elem (mkQName None "rpc-reply") attrib' kids]
    /\ by_localname attrib' = {[ "id" := "2"; "seq" := "7" ]}.
Proof.
  destruct (transform_reply_attributes (mkQName (Some BASE_NS_1_0) "rpc-reply")
              [(mkQName (Some "urn:a") "id", "1"); (mkQName None "seq", "7");
               (mkQName None "id", "2")]
              [Elem (mkQName (Some "urn:junos") "data") [] [Text "x"; PI "p" "d"; Text "y"]]
              [Elem (mkQName None "rpc-reply") [(mkQName None "id", "2"); (mkQName None "seq", "7")]
                 [Elem (mkQName None "data") [] [Text "x"; PI "p" "d"; Text "y"]]])
    as (attrib' & kids & [= <- <-] & _ & Hattr); [vm_compute; reflexivity|].
  eexists _, _. split; [reflexivity|]. rewrite Hattr. cbn [foldl fst snd localname].
  apply map_eq. intros k. vm_compute. reflexivity.
Defined.
